(** * Brave search gateway: rate limiter, query sanitizer, result normalizer

    A shallow embedding of [src/domain/brave.ts] (with the configuration of
    [src/config/index.ts], the types of [src/types.ts] and the tool handler of
    [src/index.ts]) and the properties the specification states about it.

    Conventions of the embedding:
    - a JavaScript string is the list of its UTF-16 code units;
    - a JavaScript number that the code only uses as an integer (counters,
      timestamps, counts, status codes) is a [Z];
    - the provider's JSON is taken as it may arrive: a section or the hint
      may be missing or not an array, an array element or the whole body may
      be [null], a record may lack its description or snippet, the index of
      a directive may be any JSON number; the fields that are present hold
      strings, as the declared types say;
    - a value that may be [undefined] is an [option];
    - the module-level [requestCount] object is threaded explicitly;
    - [throw] is the left injection of a sum, [try]/[catch] a match on it;
    - the clock and the network are inputs: [Date.now()] is the argument
      [now], [fetch] is a function from the request to its outcome. *)

From Stdlib Require Import ZArith NArith List Bool Lia.
From Stdlib Require Import Strings.String Strings.Ascii Numbers.DecimalString.
Import ListNotations.

Local Open Scope Z_scope.

(** Lists are the default here: a JavaScript string is a list. *)
Local Abbreviation length := List.length.

(* ------------------------------------------------------------------ *)
(** ** JavaScript strings *)

Module JsString.

(** One UTF-16 code unit. *)
Definition char16 := N.

Definition jsstring := list char16.

(** An ASCII literal of the source, as code units. *)
Definition lit (s : string) : jsstring :=
  List.map N_of_ascii (list_ascii_of_string s).

Definition SPACE : char16 := 32%N.

(** The character class [[\r\n\t]]. *)
Definition is_crlf_tab (c : char16) : bool :=
  ((c =? 13) || (c =? 10) || (c =? 9))%N.

(** The character class [\s], which is also what [trim] strips:
    ECMAScript WhiteSpace and LineTerminator. *)
Definition is_whitespace (c : char16) : bool :=
  (((9 <=? c) && (c <=? 13))        (* TAB LF VT FF CR *)
   || (c =? 32)                     (* SP *)
   || (c =? 160)                    (* NBSP *)
   || (c =? 5760)                   (* U+1680 *)
   || ((8192 <=? c) && (c <=? 8202))  (* U+2000 .. U+200A *)
   || (c =? 8232) || (c =? 8233)    (* LS PS *)
   || (c =? 8239)                   (* U+202F *)
   || (c =? 8287)                   (* U+205F *)
   || (c =? 12288)                  (* U+3000 *)
   || (c =? 65279))%N.              (* U+FEFF *)

Fixpoint dropWhile {A} (p : A -> bool) (l : list A) : list A :=
  match l with
  | [] => []
  | x :: l' => if p x then dropWhile p l' else l
  end.

(** [String.prototype.trimStart], [trimEnd] and [trim]. *)
Definition trimStart (s : jsstring) : jsstring := dropWhile is_whitespace s.

Definition trimEnd (s : jsstring) : jsstring :=
  rev (dropWhile is_whitespace (rev s)).

Definition trim (s : jsstring) : jsstring := trimEnd (trimStart s).

(** The rest of one match of [/[cls]+/]: further class characters belong
    to the same match; at the first other character the scan resumes with
    [resume]. *)
Definition afterMatch (cls : char16 -> bool)
    (resume : jsstring -> jsstring) : jsstring -> jsstring :=
  fix go (l : jsstring) : jsstring :=
    match l with
    | [] => []
    | d :: l' => if cls d then go l' else d :: resume l'
    end.

(** [s.replace(/[cls]+/g, rep)]: scanning from the left, the longest run of
    class characters starting at the current position is one match and is
    replaced by [rep]; a character outside the class is copied. *)
Fixpoint replaceAllPlus (cls : char16 -> bool) (rep s : jsstring) : jsstring :=
  match s with
  | [] => []
  | c :: rest =>
      if cls c
      then rep ++ afterMatch cls (replaceAllPlus cls rep) rest
      else c :: replaceAllPlus cls rep rest
  end.

(** [s.slice(start, end)] with integer arguments: a negative argument
    counts from the end, both are clamped to the length. *)
Definition relativeIndex (len i : Z) : Z :=
  if i <? 0 then Z.max (len + i) 0 else Z.min i len.

Definition slice {A} (s : list A) (start end_ : Z) : list A :=
  let len := Z.of_nat (length s) in
  let from := relativeIndex len start in
  let to := relativeIndex len end_ in
  firstn (Z.to_nat (Z.max (to - from) 0)) (skipn (Z.to_nat from) s).

(** [n.toString()] of an integer below 10^21 in magnitude: its decimal
    numeral.  (From 10^21 on JavaScript prints a number with an exponent;
    lengths, positions and status codes never get there, and a property that
    speaks of the text of [count] says so.) *)
Definition toStringZ (n : Z) : jsstring :=
  lit (NilZero.string_of_int (Z.to_int n)).

(** The conversion to a USVString that [URLSearchParams] applies to names
    and values: a surrogate code unit that is not part of a pair becomes
    U+FFFD. *)
Definition isHighSurrogate (c : char16) : bool :=
  ((55296 <=? c) && (c <=? 56319))%N.

Definition isLowSurrogate (c : char16) : bool :=
  ((56320 <=? c) && (c <=? 57343))%N.

Definition REPLACEMENT : char16 := 65533%N.

Fixpoint toUSVString (s : jsstring) : jsstring :=
  match s with
  | [] => []
  | c :: rest =>
      if isHighSurrogate c then
        match rest with
        | d :: rest' =>
            if isLowSurrogate d then c :: d :: toUSVString rest'
            else REPLACEMENT :: toUSVString rest
        | [] => [REPLACEMENT]
        end
      else if isLowSurrogate c then REPLACEMENT :: toUSVString rest
      else c :: toUSVString rest
  end.

(** [hay] contains [needle] as a contiguous substring. *)
Definition embeds (needle hay : jsstring) : Prop :=
  exists pre post, hay = pre ++ needle ++ post.

End JsString.
Import JsString.

(* ------------------------------------------------------------------ *)
(** ** Configuration ([src/config/index.ts]) and types ([src/types.ts]) *)

Inductive SafeSearch := strict | moderate | off.

Record RateLimit := { perSecond : Z; perMonth : Z }.

Record SearchConfig := {
  maxQueryLength : Z;
  maxResults : Z;
  defaultResults : Z;
  defaultSafeSearch : SafeSearch
}.

Record BraveConfig := { apiKey : jsstring; baseUrl : jsstring }.

Record Config := {
  rateLimit : RateLimit;
  search : SearchConfig;
  brave : BraveConfig
}.

(** The exported [config] object; [node_env_test] is
    [process.env.NODE_ENV === 'test'] and [key] is
    [process.env.BRAVE_API_KEY || '']. *)
Definition config (node_env_test : bool) (key : jsstring) : Config :=
  {| rateLimit := {| perSecond := if node_env_test then 5 else 20;
                     perMonth := if node_env_test then 1000 else 20000000 |};
     search := {| maxQueryLength := 300;
                  maxResults := 10;
                  defaultResults := 5;
                  defaultSafeSearch := strict |};
     brave := {| apiKey := key;
                 baseUrl := lit "https://api.search.brave.com/res/v1/web/search" |} |}.

Record RequestCount := { second : Z; month : Z; lastReset : Z }.

(** The module-level [requestCount] as initialised when the module loads at
    time [t0]. *)
Definition requestCount (t0 : Z) : RequestCount :=
  {| second := 0; month := 0; lastReset := t0 |}.

(* ------------------------------------------------------------------ *)
(** ** Query sanitizer *)

Section Sanitize.
Variable cfg : Config.

Definition sanitizeQuery (query : jsstring) : jsstring :=
  slice
    (replaceAllPlus is_whitespace [SPACE]
       (replaceAllPlus is_crlf_tab [SPACE]
          (trim query)))
    0 (maxQueryLength (search cfg)).

End Sanitize.

(* ------------------------------------------------------------------ *)
(** ** Exceptions *)

(** A thrown value: an [Error] with its [message], or any other value with
    the text [String(value)] gives for it. *)
Inductive Thrown :=
| ThrownError (message : jsstring)
| ThrownValue (asString : jsstring).

(** [error instanceof Error ? error.message : String(error)] *)
Definition errorMessageOf (e : Thrown) : jsstring :=
  match e with
  | ThrownError m => m
  | ThrownValue v => v
  end.

(** The [TypeError] of reading [property] of [null] or [undefined], with the
    message Node's engine gives it. *)
Definition typeErrorReading (receiver property : string) : Thrown :=
  ThrownError (lit "Cannot read properties of " ++ lit receiver
                 ++ lit " (reading '" ++ lit property ++ lit "')").

(* ------------------------------------------------------------------ *)
(** ** Rate limiter *)

Section RateLimiter.
Variable cfg : Config.

(** The per-second reset at the head of [checkRateLimit]. *)
Definition resetSecond (now : Z) (rc : RequestCount) : RequestCount :=
  if now - lastReset rc >? 1000
  then {| second := 0; month := month rc; lastReset := now |}
  else rc.

Definition limitReached (rc : RequestCount) : bool :=
  (second rc >=? perSecond (rateLimit cfg))
  || (month rc >=? perMonth (rateLimit cfg)).

(** [checkRateLimit()]: the new [requestCount], and either the thrown
    error or a normal return. *)
Definition checkRateLimit (now : Z) (rc : RequestCount)
  : RequestCount * (Thrown + unit) :=
  let rc1 := resetSecond now rc in
  if limitReached rc1
  then (rc1, inl (ThrownError (lit "Rate limit exceeded")))
  else ({| second := second rc1 + 1;
           month := month rc1 + 1;
           lastReset := lastReset rc1 |}, inr tt).

(** A run of checks at the given times; the result of each, in order. *)
Fixpoint checkAll (times : list Z) (rc : RequestCount)
  : RequestCount * list (Thrown + unit) :=
  match times with
  | [] => (rc, [])
  | now :: rest =>
      let '(rc1, r) := checkRateLimit now rc in
      let '(rc2, rs) := checkAll rest rc1 in
      (rc2, r :: rs)
  end.

End RateLimiter.

Definition succeeded {A} (r : Thrown + A) : bool :=
  match r with inr _ => true | inl _ => false end.

(* ------------------------------------------------------------------ *)
(* ------------------------------------------------------------------ *)
(** ** Provider response and normalized results *)

Inductive ResultType := web | news | video.

(** [SearchResult].  [description] is [None] when the property holds
    [undefined]. *)
Record SearchResult := {
  title : jsstring;
  description : option jsstring;
  url : jsstring;
  resultType : option ResultType
}.

(** A record of a provider section as the JSON carries it: [description] and
    [snippet] may be missing. *)
Record BraveResult := {
  raw_title : jsstring;
  raw_description : option jsstring;
  raw_snippet : option jsstring;
  raw_url : jsstring
}.

(** A number of the parsed JSON, as far as the code looks at it: an integer,
    a value strictly between [floor] and [floor + 1], or an infinity (what a
    numeral too large for a double parses to). *)
Inductive JsonNumber :=
| Integral (value : Z)
| Between (floor : Z)
| Infinite (negative : bool).

(** [x >= 0] *)
Definition number_ge0 (x : JsonNumber) : bool :=
  match x with
  | Integral z => z >=? 0
  | Between f => f >=? 0
  | Infinite negative => negb negative
  end.

(** [x < n] for an integer [n] *)
Definition number_lt (x : JsonNumber) (n : Z) : bool :=
  match x with
  | Integral z => z <? n
  | Between f => f <? n
  | Infinite negative => negative
  end.

(** [array[x]]: the element at an integer position inside the array,
    [undefined] for any other number. *)
Definition elementAt {A} (array : list A) (x : JsonNumber) : option A :=
  match x with
  | Integral z => if z <? 0 then None else nth_error array (Z.to_nat z)
  | _ => None
  end.

Record BraveMixedItem := {
  mi_type : jsstring;
  mi_index : option JsonNumber;  (* [Some x] when [typeof index === 'number'] *)
  mi_all : bool                  (* truthiness of [all] *)
}.

(** What the run-time guards of [extractBraveResults] distinguish in a
    section: nothing there ([undefined], [null]), the expected array, or a
    value of any other shape. *)
Inductive Shape (A : Type) :=
| Absent
| Malformed
| WellFormed (items : list A).
Arguments Absent {A}.
Arguments Malformed {A}.
Arguments WellFormed {A} items.

(** [BraveSearchResponse]: [r_web] is [data.web], [r_news] is
    [data.news.results], [r_videos] is [data.videos.results] and [r_mixed]
    is [data.mixed.main].  An element of an array is a record, or [None]
    for [null]. *)
Record BraveSearchResponse := {
  r_web : Shape (option BraveResult);
  r_news : Shape (option BraveResult);
  r_videos : Shape (option BraveResult);
  r_mixed : Shape (option BraveMixedItem)
}.

Fixpoint jsstring_eqb (a b : jsstring) : bool :=
  match a, b with
  | [], [] => true
  | x :: a', y :: b' => (x =? y)%N && jsstring_eqb a' b'
  | _, _ => false
  end.

(** Truthiness of a string-or-undefined value. *)
Definition truthy (v : option jsstring) : bool :=
  match v with
  | Some (_ :: _) => true
  | _ => false
  end.

(** [a || b] on string-or-undefined values. *)
Definition js_or (a b : option jsstring) : option jsstring :=
  if truthy a then a else b.

(** [`${v}`] of a string-or-undefined value. *)
Definition interpolate (v : option jsstring) : jsstring :=
  match v with
  | Some s => s
  | None => lit "undefined"
  end.

(** The events of [logger.warn] in [extractBraveResults]. *)
Inductive Warning :=
| MalformedWebSection
| MalformedNewsSection
| MalformedVideosSection
| UnknownMixedType (type : jsstring)
| IndexOutOfBounds (index : JsonNumber) (type : jsstring).

(** A step that logs warnings and then returns or throws. *)
Definition Logged (A : Type) : Type := list Warning * (Thrown + A).

Definition ret {A} (a : A) : Logged A := ([], inr a).

Definition bind {A B} (m : Logged A) (k : A -> Logged B) : Logged B :=
  match m with
  | (ws, inl e) => (ws, inl e)
  | (ws, inr a) => let '(ws', r) := k a in (ws ++ ws', r)
  end.

Notation "'let*' x ':=' m 'in' k" := (bind m (fun x => k))
  (at level 10, x name, m at level 100, k at level 200).

Definition webResult (result : BraveResult) : SearchResult :=
  {| title := raw_title result;
     description :=
       js_or (js_or (raw_description result) (raw_snippet result)) (Some []);
     url := raw_url result;
     resultType := Some web |}.

Definition newsResult (result : BraveResult) : SearchResult :=
  {| title := raw_title result;
     description := raw_description result;
     url := raw_url result;
     resultType := Some news |}.

Definition videoResult (result : BraveResult) : SearchResult :=
  {| title := raw_title result;
     description := raw_description result;
     url := raw_url result;
     resultType := Some video |}.

(** [items.map(f)] with a callback that starts by reading [result.title]:
    at the first [null] element that read throws. *)
Fixpoint mapRecords (f : BraveResult -> SearchResult)
    (items : list (option BraveResult)) : Thrown + list SearchResult :=
  match items with
  | [] => inr []
  | None :: _ => inl (typeErrorReading "null" "title")
  | Some result :: rest =>
      match mapRecords f rest with
      | inl e => inl e
      | inr mapped => inr (f result :: mapped)
      end
  end.

(** One section: the mapped list, after the warning logged for it. *)
Definition extractSection (f : BraveResult -> SearchResult)
    (warning : Warning) (sec : Shape (option BraveResult))
  : Logged (list SearchResult) :=
  match sec with
  | WellFormed items => ([], mapRecords f items)
  | Malformed => ([warning], inr [])
  | Absent => ([], inr [])
  end.

Definition webResults (data : BraveSearchResponse) :=
  extractSection webResult MalformedWebSection (r_web data).

Definition newsResults (data : BraveSearchResponse) :=
  extractSection newsResult MalformedNewsSection (r_news data).

Definition videoResults (data : BraveSearchResponse) :=
  extractSection videoResult MalformedVideosSection (r_videos data).

(** The [switch (mixedItem.type)]. *)
Definition sourceResults (webL newsL videoL : list SearchResult)
    (type : jsstring) : option (list SearchResult) :=
  if jsstring_eqb type (lit "web") then Some webL
  else if jsstring_eqb type (lit "news") then Some newsL
  else if jsstring_eqb type (lit "videos") then Some videoL
  else None.

(** The body of the loop after the [switch]: what the directive appends to
    [allResults], and the warning it logs.  An index that is inside the
    bounds but not an integer appends [sourceResults[index]], which is
    [undefined]. *)
Definition applyDirective (src : list SearchResult) (item : BraveMixedItem)
    (allResults : list (option SearchResult))
  : list (option SearchResult) * list Warning :=
  if mi_all item then (allResults ++ List.map Some src, [])
  else
    match mi_index item with
    | Some index =>
        if number_ge0 index && number_lt index (Z.of_nat (length src))
        then (allResults ++ [elementAt src index], [])
        else (allResults, [IndexOutOfBounds index (mi_type item)])
    | None => (allResults, [])
    end.

(** The [for (const mixedItem of data.mixed.main)] loop; reading
    [mixedItem.type] of a [null] element throws. *)
Fixpoint mixedLoop (webL newsL videoL : list SearchResult) (count : Z)
    (main : list (option BraveMixedItem))
    (allResults : list (option SearchResult))
  : Logged (list (option SearchResult)) :=
  match main with
  | [] => ret allResults
  | None :: _ => ([], inl (typeErrorReading "null" "type"))
  | Some mixedItem :: rest =>
      match sourceResults webL newsL videoL (mi_type mixedItem) with
      | None =>
          (* default: warn, continue *)
          let* skipped := ([UnknownMixedType (mi_type mixedItem)], inr tt) in
          mixedLoop webL newsL videoL count rest allResults
      | Some src =>
          let '(all1, w1) := applyDirective src mixedItem allResults in
          if Z.of_nat (length all1) >=? count
          then (w1, inr all1)                    (* break *)
          else
            let* logged := (w1, inr tt) in
            mixedLoop webL newsL videoL count rest all1
      end
  end.

(** [allResults] as it stands before the final [slice]. *)
Definition accumulate (data : BraveSearchResponse) (count : Z)
  : Logged (list (option SearchResult)) :=
  let* webL := webResults data in
  let* newsL := newsResults data in
  let* videoL := videoResults data in
  match r_mixed data with
  | WellFormed main => mixedLoop webL newsL videoL count main []
  | _ => ret (List.map Some (webL ++ newsL ++ videoL))
  end.

(** [extractBraveResults(data, count)]: the warnings logged, and the
    returned array or the error thrown. *)
Definition extractBraveResults (data : BraveSearchResponse) (count : Z)
  : Logged (list (option SearchResult)) :=
  let* allResults := accumulate data count in
  ret (slice allResults 0 count).

(* ------------------------------------------------------------------ *)
(** ** Search gateway *)

(** The outbound request: the URL without its query string, the query
    parameters in order, and the headers. *)
Record Request := {
  req_url : jsstring;
  req_searchParams : list (jsstring * jsstring);
  req_headers : list (jsstring * jsstring)
}.

(** [response.json()] either rejects or yields the parsed body, which may
    be [null]. *)
Inductive Body :=
| BodyRejects (e : Thrown)
| BodyNull
| BodyJson (data : BraveSearchResponse).

(** [fetch] either rejects or yields a response. *)
Inductive FetchOutcome :=
| FetchRejects (e : Thrown)
| FetchResponse (status : Z) (statusText : jsstring) (body : Body).

(** [response.ok] *)
Definition response_ok (status : Z) : bool :=
  (200 <=? status) && (status <=? 299).

(** Setting a pair in a list of query parameters: the first pair of that
    name gets the value and the later ones are removed; otherwise the pair
    is appended. *)
Fixpoint setPair (name value : jsstring)
    (params : list (jsstring * jsstring)) : list (jsstring * jsstring) :=
  match params with
  | [] => [(name, value)]
  | (k, v) :: rest =>
      if jsstring_eqb k name
      then (name, value)
             :: List.filter (fun kv => negb (jsstring_eqb (fst kv) name)) rest
      else (k, v) :: setPair name value rest
  end.

(** [url.searchParams.set(name, value)]: both arguments are converted to
    USVStrings first. *)
Definition searchParams_set (name value : jsstring)
    (params : list (jsstring * jsstring)) : list (jsstring * jsstring) :=
  setPair (toUSVString name) (toUSVString value) params.

(** [searchParams.get(name)] *)
Fixpoint searchParams_get (name : jsstring)
    (params : list (jsstring * jsstring)) : option jsstring :=
  match params with
  | [] => None
  | (k, v) :: rest =>
      if jsstring_eqb k name then Some v else searchParams_get name rest
  end.

(** The code units of the three markers of [formatSearchResults]. *)
Definition emoji_web : jsstring := [55356; 57104]%N.    (* U+1F310 *)
Definition emoji_news : jsstring := [55357; 56560]%N.   (* U+1F4F0 *)
Definition emoji_video : jsstring := [55356; 57260]%N.  (* U+1F3AC *)

Definition NL : jsstring := [10%N].
Definition QUOTE : jsstring := [34%N].

(** [parts.join(sep)] *)
Fixpoint join (sep : jsstring) (parts : list jsstring) : jsstring :=
  match parts with
  | [] => []
  | [p] => p
  | p :: rest => p ++ sep ++ join sep rest
  end.

(** [l.map((r, index) => f r index)], counting from [index]. *)
Fixpoint mapIndexed {A B} (f : A -> nat -> B) (index : nat) (l : list A)
  : list B :=
  match l with
  | [] => []
  | r :: rest => f r index :: mapIndexed f (S index) rest
  end.

Definition formatResult (r : SearchResult) (index : nat) : jsstring :=
  let emoji :=
    match resultType r with
    | Some news => emoji_news
    | Some video => emoji_video
    | _ => emoji_web
    end in
  let resultText :=
    lit "### " ++ toStringZ (Z.of_nat index + 1) ++ lit ". " ++ emoji
      ++ lit " " ++ title r in
  let resultText :=
    if truthy (description r)
    then resultText ++ NL ++ interpolate (description r)
    else resultText in
  resultText ++ NL ++ lit "[Read more](" ++ url r ++ lit ")".

Definition formatSearchResults (query : jsstring) (results : list SearchResult)
  : jsstring :=
  let formattedResults := join (NL ++ NL) (mapIndexed formatResult 0%nat results) in
  lit "Search results for " ++ QUOTE ++ query ++ QUOTE ++ lit " ("
    ++ toStringZ (Z.of_nat (length results)) ++ lit " results)" ++ NL ++ NL
    ++ formattedResults.

Definition noResultsText (query : jsstring) : jsstring :=
  lit "No results found for " ++ QUOTE ++ query ++ QUOTE
    ++ lit ". Try using different keywords or check your spelling.".

Definition errorText (query : jsstring) (error : Thrown) : jsstring :=
  lit "Sorry, there was an error performing your search for " ++ QUOTE ++ query
    ++ QUOTE ++ lit ". Error: " ++ errorMessageOf error ++ lit ".".

(** The entries of an array when none of them is [undefined]. *)
Fixpoint definedEntries {A} (entries : list (option A)) : option (list A) :=
  match entries with
  | [] => Some []
  | None :: _ => None
  | Some a :: rest =>
      match definedEntries rest with
      | Some defined => Some (a :: defined)
      | None => None
      end
  end.

(** [formatSearchResults(query, results)] as [performWebSearch] calls it, on
    the array [extractBraveResults] returned: the callback starts by reading
    [r.resultType], which throws on an [undefined] entry. *)
Definition formatExtracted (query : jsstring)
    (results : list (option SearchResult)) : Thrown + jsstring :=
  match definedEntries results with
  | Some defined => inr (formatSearchResults query defined)
  | None => inl (typeErrorReading "undefined" "resultType")
  end.

(** What one invocation leaves behind and returns. *)
Record Run (A : Type) := {
  run_state : RequestCount;        (* [requestCount] afterwards *)
  run_requests : list Request;     (* the calls of [fetch], in order *)
  run_warnings : list Warning;     (* the [logger.warn] events *)
  run_value : A
}.
Arguments run_state {A}.
Arguments run_requests {A}.
Arguments run_warnings {A}.
Arguments run_value {A}.

(** The arguments of the [brave_web_search] tool ([src/index.ts]). *)
Record ToolArgs := {
  arg_query : jsstring;
  arg_count : option Z;
  arg_safeSearch : option SafeSearch;
  arg_freshness : option jsstring
}.

Section Gateway.
Variable cfg : Config.
Variable fetch : Request -> FetchOutcome.

(** The URL and headers [fetchBraveSearchResults] builds.  The configured
    base URL carries no query string, so [searchParams] starts empty.
    [count] is an integer, and [toStringZ] its text below 10^21. *)
Definition buildRequest (query : jsstring) (count : Z) : Request :=
  {| req_url := baseUrl (brave cfg);
     req_searchParams :=
       searchParams_set (lit "safesearch") (lit "strict")
         (searchParams_set (lit "count") (toStringZ count)
            (searchParams_set (lit "q") query []));
     req_headers :=
       [ (lit "X-Subscription-Token", apiKey (brave cfg));
         (lit "Accept", lit "application/json");
         (lit "Accept-Encoding", lit "gzip") ] |}.

(** The error thrown for a response that is not [ok]. *)
Definition statusError (status : Z) (statusText : jsstring) : Thrown :=
  if status =? 401 then
    ThrownError (lit "Brave Search API: Unauthorized - check your API key")
  else if status =? 429 then
    ThrownError (lit "Brave Search API: Rate limit exceeded")
  else
    ThrownError (lit "Brave Search API error: " ++ toStringZ status
                   ++ lit " " ++ statusText).

(** [extractBraveResults((await response.json()), count)]: the parsing may
    reject, and of a [null] body already the first read, [data.web],
    throws. *)
Definition extractFromBody (body : Body) (count : Z)
  : Logged (list (option SearchResult)) :=
  match body with
  | BodyRejects e => ([], inl e)
  | BodyNull => ([], inl (typeErrorReading "null" "web"))
  | BodyJson data => extractBraveResults data count
  end.

(** [fetchBraveSearchResults(query, count)]: the request issued, the
    warnings logged, and the results or the thrown error. *)
Definition fetchBraveSearchResults (query : jsstring) (count : Z)
  : Request * list Warning * (Thrown + list (option SearchResult)) :=
  let request := buildRequest query count in
  match fetch request with
  | FetchRejects e => (request, [], inl e)
  | FetchResponse status statusText body =>
      if negb (response_ok status)
      then (request, [], inl (statusError status statusText))
      else
        let '(ws, results) := extractFromBody body count in
        (request, ws, results)
  end.

(** The [try] block of [performWebSearch]. *)
Definition searchBody (now : Z) (rc : RequestCount)
    (query : jsstring) (count : Z) : Run (Thrown + jsstring) :=
  match checkRateLimit cfg now rc with
  | (rc1, inl e) =>
      {| run_state := rc1; run_requests := []; run_warnings := [];
         run_value := inl e |}
  | (rc1, inr _) =>
      let sanitizedQuery := sanitizeQuery cfg query in
      let '(request, ws, fetched) :=
        fetchBraveSearchResults sanitizedQuery count in
      {| run_state := rc1; run_requests := [request]; run_warnings := ws;
         run_value :=
           match fetched with
           | inl e => inl e
           | inr results =>
               if (length results =? 0)%nat
               then inr (noResultsText query)
               else formatExtracted query results
           end |}
  end.

(** The default of the [count] parameter. *)
Definition countOrDefault (count : option Z) : Z :=
  match count with
  | Some c => c
  | None => defaultResults (search cfg)
  end.

(** [performWebSearch(query, count, safeSearch)]: the [try] block, and the
    [catch] that turns a thrown value into text.  [safeSearch] only
    reaches the debug log. *)
Definition performWebSearch (now : Z) (rc : RequestCount)
    (query : jsstring) (count : option Z) (safeSearch : option SafeSearch)
  : Run (Thrown + jsstring) :=
  let count := countOrDefault count in
  let safeSearch :=
    match safeSearch with
    | Some s => s
    | None => defaultSafeSearch (search cfg)
    end in
  let r := searchBody now rc query count in
  {| run_state := run_state r;
     run_requests := run_requests r;
     run_warnings := run_warnings r;
     run_value :=
       match run_value r with
       | inr text => inr text
       | inl error => inr (errorText query error)
       end |}.

(** [isWebSearchArgs]: the argument is an object with a string [query] by
    its type here, which leaves the length test. *)
Definition isWebSearchArgs (args : ToolArgs) : bool :=
  negb (Z.of_nat (length (arg_query args)) >? maxQueryLength (search cfg)).

(** The tool handler of [src/index.ts]: the text of the search, or the
    error it rethrows.  It calls
    [performWebSearch(args.query, args.count, args.safeSearch, args.freshness)];
    [performWebSearch] declares three parameters, so the fourth argument is
    bound to none of them. *)
Definition braveWebSearchTool (now : Z) (rc : RequestCount) (args : ToolArgs)
  : Run (Thrown + jsstring) :=
  let rethrow (error : Thrown) :=
    ThrownError (lit "Brave search failed: " ++ errorMessageOf error) in
  if negb (isWebSearchArgs args) then
    {| run_state := rc; run_requests := []; run_warnings := [];
       run_value :=
         inl (rethrow (ThrownError (lit "Invalid search arguments provided"))) |}
  else
    let r :=
      performWebSearch now rc
        (arg_query args) (arg_count args) (arg_safeSearch args) in
    {| run_state := run_state r;
       run_requests := run_requests r;
       run_warnings := run_warnings r;
       run_value :=
         match run_value r with
         | inr searchResults => inr searchResults
         | inl error => inl (rethrow error)
         end |}.

(** The errors of one invocation, by where they arise: the rate limiter,
    the network, a response that is not [ok], the parsing of the body, and
    the [TypeError]s of a body that is not shaped as declared, thrown while
    the results are extracted or formatted. *)
Inductive Arises (now : Z) (rc : RequestCount) (query : jsstring) (count : Z)
  : Thrown -> Prop :=
| RateLimitFailure :
    limitReached cfg (resetSecond now rc) = true ->
    Arises now rc query count (ThrownError (lit "Rate limit exceeded"))
| NetworkFailure e :
    limitReached cfg (resetSecond now rc) = false ->
    fetch (buildRequest (sanitizeQuery cfg query) count) = FetchRejects e ->
    Arises now rc query count e
| ProviderFailure status statusText body :
    limitReached cfg (resetSecond now rc) = false ->
    fetch (buildRequest (sanitizeQuery cfg query) count)
    = FetchResponse status statusText body ->
    response_ok status = false ->
    Arises now rc query count (statusError status statusText)
| ParseFailure status statusText e :
    limitReached cfg (resetSecond now rc) = false ->
    fetch (buildRequest (sanitizeQuery cfg query) count)
    = FetchResponse status statusText (BodyRejects e) ->
    response_ok status = true ->
    Arises now rc query count e
| ExtractionFailure status statusText body e :
    limitReached cfg (resetSecond now rc) = false ->
    fetch (buildRequest (sanitizeQuery cfg query) count)
    = FetchResponse status statusText body ->
    response_ok status = true ->
    snd (extractFromBody body count) = inl e ->
    Arises now rc query count e
| FormattingFailure status statusText body results e :
    limitReached cfg (resetSecond now rc) = false ->
    fetch (buildRequest (sanitizeQuery cfg query) count)
    = FetchResponse status statusText body ->
    response_ok status = true ->
    snd (extractFromBody body count) = inr results ->
    results <> [] ->
    formatExtracted query results = inl e ->
    Arises now rc query count e.

End Gateway.

(* ------------------------------------------------------------------ *)
(** ** The specification's wording, for comparison with the code *)

Module Spec.

(** "trim leading/trailing whitespace" *)
Fixpoint stripLeading (s : jsstring) : jsstring :=
  match s with
  | [] => []
  | c :: s' => if is_whitespace c then stripLeading s' else c :: s'
  end.

Fixpoint stripTrailing (s : jsstring) : jsstring :=
  match s with
  | [] => []
  | c :: s' =>
      match stripTrailing s' with
      | [] => if is_whitespace c then [] else [c]
      | kept => c :: kept
      end
  end.

Definition trimWhitespace (s : jsstring) : jsstring :=
  stripTrailing (stripLeading s).

(** "collapse any run of [cls] characters into a single space": [inRun]
    says that the previous character belonged to the class. *)
Fixpoint collapseRuns (cls : char16 -> bool) (inRun : bool) (s : jsstring)
  : jsstring :=
  match s with
  | [] => []
  | c :: s' =>
      if cls c then
        if inRun then collapseRuns cls true s'
        else SPACE :: collapseRuns cls true s'
      else c :: collapseRuns cls false s'
  end.

(** "truncate to configured maximum query length (character count)" *)
Definition truncate (maxLength : Z) (s : jsstring) : jsstring :=
  firstn (Z.to_nat maxLength) s.

Definition sanitize (maxLength : Z) (rawQuery : jsstring) : jsstring :=
  truncate maxLength
    (collapseRuns is_whitespace false
       (collapseRuns is_crlf_tab false
          (trimWhitespace rawQuery))).

(** "description falls back from the primary description field to an
    alternate snippet field, else empty text" *)
Definition fallbackDescription (primary snippet : option jsstring)
  : jsstring :=
  match primary with
  | Some (c :: d) => c :: d
  | _ =>
      match snippet with
      | Some (c :: d) => c :: d
      | _ => []
      end
  end.

(** The sections a directive can name.  The hint names a section as the
    response does: web, news, videos. *)
Inductive SectionName := WebSection | NewsSection | VideoSection.

(** A directive of the ordering hint: a section type and either "take all"
    or the index of one item. *)
Record Directive := {
  sectionType : jsstring;
  takeAll : bool;
  itemIndex : option Z
}.

Definition sameText (a b : jsstring) : bool :=
  (length a =? length b)%nat
  && forallb (fun pair => (fst pair =? snd pair)%N) (combine a b).

Definition sectionNamed (type : jsstring) : option SectionName :=
  if sameText type (lit "web") then Some WebSection
  else if sameText type (lit "news") then Some NewsSection
  else if sameText type (lit "videos") then Some VideoSection
  else None.

(** "resolve to one of the three lists by declared section type" *)
Definition resolve (webList newsList videoList : list SearchResult)
    (section : SectionName) : list SearchResult :=
  match section with
  | WebSection => webList
  | NewsSection => newsList
  | VideoSection => videoList
  end.

(** What one directive of the ordering hint contributes: the whole
    resolved list for "take all", the single item for an index within
    bounds, nothing for an index out of bounds or an unrecognized section
    type. *)
Definition contribution (webList newsList videoList : list SearchResult)
    (d : Directive) : list SearchResult :=
  match sectionNamed (sectionType d) with
  | None => []
  | Some section =>
      let resolved := resolve webList newsList videoList section in
      if takeAll d then resolved
      else
        match itemIndex d with
        | Some i =>
            if (0 <=? i) && (i <? Z.of_nat (length resolved))
            then firstn 1 (skipn (Z.to_nat i) resolved)
            else []
        | None => []
        end
  end.

(** "iterate the hint directives in order ... if accumulated output length
    >= count, stop processing further directives" *)
Fixpoint processDirectives (webList newsList videoList : list SearchResult)
    (count : Z) (hint : list Directive) (output : list SearchResult)
  : list SearchResult :=
  match hint with
  | [] => output
  | d :: rest =>
      if count <=? Z.of_nat (length output) then output
      else processDirectives webList newsList videoList count rest
             (output ++ contribution webList newsList videoList d)
  end.

(** The accumulated output: by the hint when a well-formed one is present,
    the plain concatenation otherwise. *)
Definition merged (webList newsList videoList : list SearchResult)
    (hint : option (list Directive)) (count : Z) : list SearchResult :=
  match hint with
  | Some directives =>
      processDirectives webList newsList videoList count directives []
  | None => webList ++ newsList ++ videoList
  end.

(** "Truncate final output to the first [count] items" *)
Definition normalize (webList newsList videoList : list SearchResult)
    (hint : option (list Directive)) (count : Z) : list SearchResult :=
  firstn (Z.to_nat count) (merged webList newsList videoList hint count).

End Spec.

(** A directive of the specification as the provider's JSON carries it. *)
Definition rawItem (d : Spec.Directive) : BraveMixedItem :=
  {| mi_type := Spec.sectionType d;
     mi_index := option_map Integral (Spec.itemIndex d);
     mi_all := Spec.takeAll d |}.

Definition rawDirective (d : Spec.Directive) : option BraveMixedItem :=
  Some (rawItem d).

(** The ordering hint of a response, when it is well formed. *)
Definition orderingHint (data : BraveSearchResponse)
  : option (list (option BraveMixedItem)) :=
  match r_mixed data with
  | WellFormed main => Some main
  | _ => None
  end.

(** The records of a section: those of its array when that holds no [null],
    none when the section is absent or not an array; [None] when the array
    holds a [null]. *)
Definition sectionRecords (sec : Shape (option BraveResult))
  : option (list BraveResult) :=
  match sec with
  | WellFormed items => definedEntries items
  | _ => Some []
  end.

(** A string starts, or ends, with a whitespace character. *)
Definition startsWithSpace (s : jsstring) : bool :=
  match s with
  | [] => false
  | c :: _ => is_whitespace c
  end.

Definition endsWithSpace (s : jsstring) : bool := startsWithSpace (rev s).

(** Every whitespace character is a single U+0020 followed by something that
    is not whitespace. *)
Fixpoint singleSpaced (s : jsstring) : Prop :=
  match s with
  | [] => True
  | c :: s' =>
      (is_whitespace c = true -> c = SPACE /\ startsWithSpace s' = false)
      /\ singleSpaced s'
  end.

(** A section that is present but malformed, replaced by the empty list. *)
Definition emptyIfMalformed {A} (sec : Shape A) : Shape A :=
  match sec with
  | Malformed => WellFormed []
  | other => other
  end.

Definition repairSections (data : BraveSearchResponse) : BraveSearchResponse :=
  {| r_web := emptyIfMalformed (r_web data);
     r_news := emptyIfMalformed (r_news data);
     r_videos := emptyIfMalformed (r_videos data);
     r_mixed := r_mixed data |}.

(* ------------------------------------------------------------------ *)
(** ** Notions used in the further properties *)

(** The characters of a string that are not whitespace, in order. *)
Definition visible (s : jsstring) : jsstring :=
  List.filter (fun c => negb (is_whitespace c)) s.

(** The records among the elements of a section's array. *)
Definition presentRecords (sec : Shape (option BraveResult))
  : list BraveResult :=
  match sec with
  | WellFormed items =>
      flat_map (fun item => match item with Some r => [r] | None => [] end)
        items
  | _ => []
  end.

(** The records of the three sections, mapped as [extractBraveResults] maps
    them, one section after the other. *)
Definition sectionItems (data : BraveSearchResponse) : list SearchResult :=
  List.map webResult (presentRecords (r_web data))
    ++ List.map newsResult (presentRecords (r_news data))
    ++ List.map videoResult (presentRecords (r_videos data)).

(** The hint of the response has a directive whose index is a number but
    not an integer. *)
Definition hasFractionalIndex (data : BraveSearchResponse) : Prop :=
  exists main d floor,
    r_mixed data = WellFormed main
    /\ In (Some d) main
    /\ mi_index d = Some (Between floor).

(** An entry of [allResults] is an item of the sections, or [undefined]
    under the condition [fractional]. *)
Definition entryFrom (items : list SearchResult) (fractional : Prop)
    (entry : option SearchResult) : Prop :=
  match entry with
  | Some r => In r items
  | None => fractional
  end.

(** What the loop body makes of one directive on an empty [allResults];
    nothing for a section type the [switch] does not know. *)
Definition directiveItems (webL newsL videoL : list SearchResult)
    (d : BraveMixedItem) : list (option SearchResult) :=
  match sourceResults webL newsL videoL (mi_type d) with
  | Some src => fst (applyDirective src d [])
  | None => []
  end.

(** A result whose undefined description is replaced by the empty text. *)
Definition withDefinedDescription (r : SearchResult) : SearchResult :=
  {| title := title r;
     description :=
       Some (match description r with Some d => d | None => [] end);
     url := url r;
     resultType := resultType r |}.

(** The checks of a run that returned. *)
Definition admitted (results : list (Thrown + unit)) : Z :=
  Z.of_nat (length (List.filter succeeded results)).

(* ------------------------------------------------------------------ *)
(** ** Sample inputs *)

(** The configuration under [NODE_ENV=test] and otherwise, without
    an API key. *)
Definition testConfig : Config := config true [].
Definition liveConfig : Config := config false [].

(** 299 letters, a space and one more letter: two characters over the
    maximum query length. *)
Definition longQuery : jsstring := repeat 97%N 299 ++ lit " b".

(** A provider record named [name], with a description and no snippet. *)
Definition sampleRecord (name : string) : BraveResult :=
  {| raw_title := lit name;
     raw_description := Some (lit "about " ++ lit name);
     raw_snippet := None;
     raw_url := lit "https://example.org/" ++ lit name |}.

(** A news record that has a snippet and no description. *)
Definition snippetOnlyRecord : BraveResult :=
  {| raw_title := lit "t";
     raw_description := None;
     raw_snippet := Some (lit "s");
     raw_url := lit "u" |}.

(** web = [a, b], news = [c], video = [], under the given ordering hint. *)
Definition sampleResponse (hint : Shape (option BraveMixedItem))
  : BraveSearchResponse :=
  {| r_web := WellFormed [Some (sampleRecord "a"); Some (sampleRecord "b")];
     r_news := WellFormed [Some (sampleRecord "c")];
     r_videos := WellFormed [];
     r_mixed := hint |}.

(** All of web, then item 0 of news. *)
Definition sampleDirectives : list Spec.Directive :=
  [ {| Spec.sectionType := lit "web"; Spec.takeAll := true;
       Spec.itemIndex := None |};
    {| Spec.sectionType := lit "news"; Spec.takeAll := false;
       Spec.itemIndex := Some 0 |} ].

Definition sampleHint : list (option BraveMixedItem) :=
  List.map rawDirective sampleDirectives.

(** An unknown section type, index out of bounds, then item 1 of web. *)
Definition oddHint : list (option BraveMixedItem) :=
  [ Some {| mi_type := lit "images"; mi_index := None; mi_all := true |};
    Some {| mi_type := lit "news"; mi_index := Some (Integral 1);
            mi_all := false |};
    Some {| mi_type := lit "web"; mi_index := Some (Integral 1);
            mi_all := false |} ].

(** Item "0.5" of web: inside the bounds, and no item. *)
Definition fractionalHint : list (option BraveMixedItem) :=
  [ Some {| mi_type := lit "web"; mi_index := Some (Between 0);
            mi_all := false |} ].

(** A response whose web section is the array [[null]]. *)
Definition nullWebResponse : BraveSearchResponse :=
  {| r_web := WellFormed [None];
     r_news := Absent;
     r_videos := Absent;
     r_mixed := Absent |}.

(** A response whose web section is not an array, and whose news section
    holds the record without a description. *)
Definition malformedWebResponse : BraveSearchResponse :=
  {| r_web := Malformed;
     r_news := WellFormed [Some snippetOnlyRecord];
     r_videos := Absent;
     r_mixed := Absent |}.

(** A network that answers every request with status 200 and [data]. *)
Definition respondWith (data : BraveSearchResponse) : Request -> FetchOutcome :=
  fun _ => FetchResponse 200 (lit "OK") (BodyJson data).

(** A network that is down. *)
Definition unreachable : Request -> FetchOutcome :=
  fun _ => FetchRejects (ThrownError (lit "fetch failed")).

(** Tool arguments with a freshness token. *)
Definition freshArgs : ToolArgs :=
  {| arg_query := lit "cats";
     arg_count := Some 5;
     arg_safeSearch := Some strict;
     arg_freshness := Some (lit "pd") |}.


(* ================================================================== *)
(** * Properties *)

(** ** Lists and strings *)

Lemma slice_from_0 {A} (s : list A) (n : Z) :
  0 <= n -> slice s 0 n = firstn (Z.to_nat n) s.
Proof.
  intros Hn. unfold slice, relativeIndex.
  replace (0 <? 0) with false by reflexivity.
  replace (n <? 0) with false by (symmetry; apply Z.ltb_ge; exact Hn).
  rewrite (Z.min_l 0) by lia. simpl skipn.
  destruct (Z_le_gt_dec n (Z.of_nat (length s))) as [Hle | Hgt].
  - f_equal. lia.
  - replace (Z.to_nat (Z.max (Z.min n (Z.of_nat (length s)) - 0) 0))
      with (length s) by lia.
    rewrite firstn_all. symmetry. apply firstn_all2. lia.
Qed.

Lemma slice_nil {A} (a b : Z) : slice (@nil A) a b = [].
Proof.
  unfold slice. simpl skipn. rewrite skipn_nil. apply firstn_nil.
Qed.

Lemma slice_length_le {A} (s : list A) (n : Z) :
  0 <= n -> Z.of_nat (length (slice s 0 n)) <= n.
Proof.
  intros Hn. rewrite slice_from_0 by exact Hn.
  pose proof (firstn_le_length (Z.to_nat n) s) as H1.
  assert (H2 : (length (firstn (Z.to_nat n) s) <= Z.to_nat n)%nat).
  { rewrite length_firstn. apply Nat.le_min_l. }
  lia.
Qed.

Lemma crlf_tab_is_whitespace (c : char16) :
  is_crlf_tab c = true -> is_whitespace c = true.
Proof.
  unfold is_crlf_tab. rewrite !orb_true_iff, !N.eqb_eq.
  intros [[H | H] | H]; subst c; reflexivity.
Qed.

Lemma afterMatch_cons cls resume (d : char16) (l : jsstring) :
  afterMatch cls resume (d :: l)
  = if cls d then afterMatch cls resume l else d :: resume l.
Proof. reflexivity. Qed.

Lemma replaceAllPlus_cons cls rep (c : char16) (rest : jsstring) :
  replaceAllPlus cls rep (c :: rest)
  = if cls c
    then rep ++ afterMatch cls (replaceAllPlus cls rep) rest
    else c :: replaceAllPlus cls rep rest.
Proof. reflexivity. Qed.

(** The leftmost-longest replacement of [/[cls]+/g] by one space is the
    collapsing of every run. *)
Lemma replaceAllPlus_collapseRuns cls (s : jsstring) :
  replaceAllPlus cls [SPACE] s = Spec.collapseRuns cls false s
  /\ afterMatch cls (replaceAllPlus cls [SPACE]) s = Spec.collapseRuns cls true s.
Proof.
  induction s as [| c s [IHscan IHrun]]; [split; reflexivity |].
  rewrite replaceAllPlus_cons, afterMatch_cons. cbn [Spec.collapseRuns].
  destruct (cls c); rewrite ?IHscan, ?IHrun; split; reflexivity.
Qed.

Lemma trimStart_stripLeading (s : jsstring) : trimStart s = Spec.stripLeading s.
Proof.
  unfold trimStart. induction s as [| c s IH]; simpl; [reflexivity |].
  destruct (is_whitespace c); [exact IH | reflexivity].
Qed.

Lemma dropWhile_snoc {A} (p : A -> bool) (l : list A) (c : A) :
  dropWhile p (l ++ [c])
  = match dropWhile p l with
    | [] => if p c then [] else [c]
    | kept => kept ++ [c]
    end.
Proof.
  induction l as [| a l IH]; simpl; [reflexivity |].
  destruct (p a); [exact IH | reflexivity].
Qed.

Lemma trimEnd_stripTrailing (s : jsstring) : trimEnd s = Spec.stripTrailing s.
Proof.
  unfold trimEnd. induction s as [| c s IH]; [reflexivity |].
  cbn [rev Spec.stripTrailing]. rewrite dropWhile_snoc, <- IH.
  destruct (dropWhile is_whitespace (rev s)) as [| x kept].
  - simpl. destruct (is_whitespace c); reflexivity.
  - rewrite rev_app_distr. cbn [rev app].
    destruct (rev kept ++ [x]) eqn:E; [| reflexivity].
    now destruct (rev kept).
Qed.

Lemma trim_trimWhitespace (s : jsstring) : trim s = Spec.trimWhitespace s.
Proof.
  unfold trim, Spec.trimWhitespace.
  now rewrite trimEnd_stripTrailing, trimStart_stripLeading.
Qed.

Lemma sanitizeQuery_spec cfg (q : jsstring) :
  0 <= maxQueryLength (search cfg) ->
  sanitizeQuery cfg q = Spec.sanitize (maxQueryLength (search cfg)) q.
Proof.
  intros Hmax. unfold sanitizeQuery, Spec.sanitize, Spec.truncate.
  rewrite slice_from_0 by exact Hmax.
  rewrite trim_trimWhitespace.
  rewrite (proj1 (replaceAllPlus_collapseRuns is_crlf_tab _)).
  rewrite (proj1 (replaceAllPlus_collapseRuns is_whitespace _)).
  reflexivity.
Qed.

(** *** The shape of a sanitized query *)

Lemma stripLeading_head (s : jsstring) :
  startsWithSpace (Spec.stripLeading s) = false.
Proof.
  induction s as [| c s IH]; simpl; [reflexivity |].
  destruct (is_whitespace c) eqn:E; [exact IH | exact E].
Qed.

Lemma stripTrailing_head (s : jsstring) :
  startsWithSpace s = false -> startsWithSpace (Spec.stripTrailing s) = false.
Proof.
  destruct s as [| c s]; simpl; [reflexivity |]. intros Hc.
  destruct (Spec.stripTrailing s); [rewrite Hc |]; exact Hc.
Qed.

Lemma collapseRuns_head cls (b : bool) (s : jsstring) :
  (forall c, cls c = true -> is_whitespace c = true) ->
  startsWithSpace s = false ->
  startsWithSpace (Spec.collapseRuns cls b s) = false.
Proof.
  intros Hcls. destruct s as [| c s]; simpl; [reflexivity |]. intros Hc.
  destruct (cls c) eqn:E; [| exact Hc].
  apply Hcls in E. congruence.
Qed.

Lemma collapseRuns_inRun_head (s : jsstring) :
  startsWithSpace (Spec.collapseRuns is_whitespace true s) = false.
Proof.
  induction s as [| c s IH]; simpl; [reflexivity |].
  destruct (is_whitespace c) eqn:E; [exact IH | exact E].
Qed.

Lemma collapseRuns_singleSpaced (b : bool) (s : jsstring) :
  singleSpaced (Spec.collapseRuns is_whitespace b s).
Proof.
  revert b. induction s as [| c s IH]; intros b; simpl; [exact I |].
  destruct (is_whitespace c) eqn:E.
  - destruct b; [apply IH |]. simpl. split; [| apply IH].
    intros _. split; [reflexivity | apply collapseRuns_inRun_head].
  - simpl. split; [congruence | apply IH].
Qed.

Lemma firstn_head (n : nat) (s : jsstring) :
  startsWithSpace s = false -> startsWithSpace (firstn n s) = false.
Proof. destruct n, s; simpl; auto. Qed.

Lemma firstn_singleSpaced (n : nat) (s : jsstring) :
  singleSpaced s -> singleSpaced (firstn n s).
Proof.
  revert n. induction s as [| c s IH]; intros [| n]; simpl; auto.
  intros [Hc Hs]. split; [| apply IH; exact Hs].
  intros Hw. destruct (Hc Hw) as [-> Hnext].
  split; [reflexivity | apply firstn_head; exact Hnext].
Qed.

Lemma singleSpaced_collapse_crlf_tab (b : bool) (s : jsstring) :
  singleSpaced s -> Spec.collapseRuns is_crlf_tab b s = s.
Proof.
  revert b. induction s as [| c s IH]; intros b; simpl; [reflexivity |].
  intros [Hc Hs]. destruct (is_crlf_tab c) eqn:E.
  - destruct (Hc (crlf_tab_is_whitespace c E)) as [-> _]. discriminate E.
  - f_equal. apply IH. exact Hs.
Qed.

Lemma singleSpaced_collapse_whitespace (s : jsstring) :
  singleSpaced s ->
  Spec.collapseRuns is_whitespace false s = s
  /\ (startsWithSpace s = false -> Spec.collapseRuns is_whitespace true s = s).
Proof.
  induction s as [| c s IH]; simpl; [intros _; split; reflexivity |].
  intros [Hc Hs]. destruct (IH Hs) as [IHscan IHrun].
  destruct (is_whitespace c) eqn:E.
  - destruct (Hc eq_refl) as [-> Hnext]. split; [| discriminate].
    f_equal. apply IHrun. exact Hnext.
  - split; [| intros _]; f_equal; exact IHscan.
Qed.

Lemma stripTrailing_prefix (s : jsstring) :
  exists n, Spec.stripTrailing s = firstn n s.
Proof.
  induction s as [| c s [n IH]]; [exists 0%nat; reflexivity |].
  simpl. destruct (Spec.stripTrailing s) as [| x kept].
  - destruct (is_whitespace c); [exists 0%nat | exists 1%nat]; reflexivity.
  - exists (S n). simpl. now rewrite <- IH.
Qed.

Lemma trimStart_fixed (s : jsstring) :
  startsWithSpace s = false -> trimStart s = s.
Proof.
  unfold trimStart. destruct s as [| c s]; simpl; [reflexivity |].
  now intros ->.
Qed.

Lemma trimEnd_fixed (s : jsstring) :
  endsWithSpace s = false -> trimEnd s = s.
Proof.
  unfold endsWithSpace, trimEnd. intros H.
  rewrite (trimStart_fixed (rev s) H : dropWhile is_whitespace (rev s) = rev s).
  apply rev_involutive.
Qed.

(** A sanitized query has single spaces only, and none in front. *)
Lemma sanitizeQuery_shape cfg (q : jsstring) :
  0 <= maxQueryLength (search cfg) ->
  singleSpaced (sanitizeQuery cfg q)
  /\ startsWithSpace (sanitizeQuery cfg q) = false.
Proof.
  intros Hmax. rewrite sanitizeQuery_spec by exact Hmax.
  unfold Spec.sanitize, Spec.truncate, Spec.trimWhitespace. split.
  - apply firstn_singleSpaced, collapseRuns_singleSpaced.
  - apply firstn_head.
    apply collapseRuns_head; [auto |].
    apply collapseRuns_head; [exact crlf_tab_is_whitespace |].
    apply stripTrailing_head, stripLeading_head.
Qed.

(** Sanitizing a sanitized query only removes a space the truncation left
    at the end. *)
Lemma sanitizeQuery_again cfg (q : jsstring) :
  0 <= maxQueryLength (search cfg) ->
  sanitizeQuery cfg (sanitizeQuery cfg q) = trimEnd (sanitizeQuery cfg q).
Proof.
  intros Hmax.
  destruct (sanitizeQuery_shape cfg q Hmax) as [Hshape Hhead].
  pose proof (slice_length_le
                (replaceAllPlus is_whitespace [SPACE]
                   (replaceAllPlus is_crlf_tab [SPACE] (trim q)))
                _ Hmax) as Hlen.
  fold (sanitizeQuery cfg q) in Hlen.
  set (s := sanitizeQuery cfg q) in *.
  rewrite (sanitizeQuery_spec cfg s Hmax).
  unfold Spec.sanitize, Spec.truncate, Spec.trimWhitespace.
  rewrite <- trimStart_stripLeading, (trimStart_fixed s Hhead).
  rewrite trimEnd_stripTrailing.
  destruct (stripTrailing_prefix s) as [n Hn].
  assert (Hkept : singleSpaced (Spec.stripTrailing s)).
  { rewrite Hn. apply firstn_singleSpaced. exact Hshape. }
  rewrite (singleSpaced_collapse_crlf_tab false _ Hkept).
  rewrite (proj1 (singleSpaced_collapse_whitespace _ Hkept)).
  apply firstn_all2. rewrite Hn, length_firstn. lia.
Qed.

(* ------------------------------------------------------------------ *)
(** ** Query sanitizer *)

Example sanitize_cats_dogs :
  sanitizeQuery liveConfig (lit "  cats" ++ [10; 9]%N ++ lit "dogs  ")
  = lit "cats dogs".
Proof. vm_compute. reflexivity. Qed.

(** C5, as stated, fails: truncation can leave a space at the end of the
    sanitized query, which the next [trim] removes.  For [longQuery] the
    first pass keeps 300 characters, the second 299. *)
Lemma sanitizeQuery_not_idempotent :
  sanitizeQuery liveConfig (sanitizeQuery liveConfig longQuery)
  <> sanitizeQuery liveConfig longQuery
  /\ length (sanitizeQuery liveConfig longQuery) = 300%nat
  /\ length (sanitizeQuery liveConfig (sanitizeQuery liveConfig longQuery))
     = 299%nat.
Proof.
  assert (H1 : length (sanitizeQuery liveConfig longQuery) = 300%nat)
    by (vm_compute; reflexivity).
  assert (H2 : length (sanitizeQuery liveConfig
                         (sanitizeQuery liveConfig longQuery)) = 299%nat)
    by (vm_compute; reflexivity).
  repeat split; trivial.
  intros E. rewrite E in H2. congruence.
Qed.

(** C5 (amended): sanitizing is idempotent on every query whose sanitized
    form does not end in whitespace, that is, whenever the truncation does
    not cut right after a space. *)
Theorem sanitizeQuery_idempotent cfg (q : jsstring) :
  0 <= maxQueryLength (search cfg) ->
  endsWithSpace (sanitizeQuery cfg q) = false ->
  sanitizeQuery cfg (sanitizeQuery cfg q) = sanitizeQuery cfg q.
Proof.
  intros Hmax Hend. rewrite sanitizeQuery_again by exact Hmax.
  apply trimEnd_fixed. exact Hend.
Qed.

Lemma sanitizeQuery_idempotent_witness :
  0 <= maxQueryLength (search liveConfig)
  /\ endsWithSpace (sanitizeQuery liveConfig (lit "  cats  and dogs ")) = false
  /\ sanitizeQuery liveConfig (sanitizeQuery liveConfig (lit "  cats  and dogs "))
     = sanitizeQuery liveConfig (lit "  cats  and dogs ").
Proof.
  split; [simpl; lia |]. split; [vm_compute; reflexivity |].
  apply sanitizeQuery_idempotent; [simpl; lia | vm_compute; reflexivity].
Defined.

(** In particular a query within the maximum length, which is all the tool
    handler lets through, is never cut, and sanitizing it twice changes
    nothing. *)
Lemma collapseRuns_length cls (b : bool) (s : jsstring) :
  (length (Spec.collapseRuns cls b s) <= length s)%nat.
Proof.
  revert b. induction s as [| c s IH]; intros b; simpl; [lia |].
  pose proof (IH true). pose proof (IH false).
  destruct (cls c); [destruct b |]; simpl; lia.
Qed.

Lemma collapseRuns_snoc cls (b : bool) (s : jsstring) (c : char16) :
  cls c = false ->
  Spec.collapseRuns cls b (s ++ [c]) = Spec.collapseRuns cls b s ++ [c].
Proof.
  intros Hc. revert b. induction s as [| a s IH]; intros b; simpl.
  - now rewrite Hc.
  - destruct (cls a); [destruct b |]; simpl; now rewrite IH.
Qed.

Lemma stripLeading_length (s : jsstring) :
  (length (Spec.stripLeading s) <= length s)%nat.
Proof.
  induction s as [| c s IH]; simpl; [lia |].
  destruct (is_whitespace c); simpl; lia.
Qed.

Lemma trimEnd_last (s : jsstring) :
  trimEnd s = []
  \/ exists kept c, trimEnd s = kept ++ [c] /\ is_whitespace c = false.
Proof.
  unfold trimEnd.
  pose proof (stripLeading_head (rev s)) as Hhead.
  rewrite <- trimStart_stripLeading in Hhead. unfold trimStart in Hhead.
  destruct (dropWhile is_whitespace (rev s)) as [| c kept]; [now left |].
  right. exists (rev kept), c. split; [reflexivity | exact Hhead].
Qed.

Lemma endsWithSpace_snoc (s : jsstring) (c : char16) :
  endsWithSpace (s ++ [c]) = is_whitespace c.
Proof. unfold endsWithSpace. now rewrite rev_app_distr. Qed.

Lemma short_query_sanitized_twice cfg (q : jsstring) :
  Z.of_nat (length q) <= maxQueryLength (search cfg) ->
  sanitizeQuery cfg (sanitizeQuery cfg q) = sanitizeQuery cfg q.
Proof.
  intros Hlen. assert (Hmax : 0 <= maxQueryLength (search cfg)) by lia.
  rewrite sanitizeQuery_again by exact Hmax. apply trimEnd_fixed.
  rewrite sanitizeQuery_spec by exact Hmax.
  unfold Spec.sanitize, Spec.truncate, Spec.trimWhitespace.
  set (t := Spec.stripTrailing (Spec.stripLeading q)).
  assert (Ht : (length t <= length q)%nat).
  { subst t. destruct (stripTrailing_prefix (Spec.stripLeading q)) as [n ->].
    rewrite length_firstn. pose proof (stripLeading_length q). lia. }
  rewrite firstn_all2.
  2:{ pose proof (collapseRuns_length is_whitespace false
                    (Spec.collapseRuns is_crlf_tab false t)).
      pose proof (collapseRuns_length is_crlf_tab false t). lia. }
  destruct (trimEnd_last (Spec.stripLeading q)) as [E | (kept & c & E & Hc)];
    rewrite trimEnd_stripTrailing in E; fold t in E; rewrite E;
    [reflexivity |].
  assert (Hc' : is_crlf_tab c = false).
  { destruct (is_crlf_tab c) eqn:E'; [| reflexivity].
    apply crlf_tab_is_whitespace in E'. congruence. }
  rewrite (collapseRuns_snoc _ _ _ _ Hc'), (collapseRuns_snoc _ _ _ _ Hc).
  rewrite endsWithSpace_snoc. exact Hc.
Qed.

(** C6: [sanitizeQuery] is the four steps of the specification in their
    order (trim, collapse runs of CR/LF/TAB, collapse runs of whitespace,
    truncate), a total function of the query and the configured maximum, and
    its result is at most [maxQueryLength] characters long. *)
Theorem sanitizeQuery_steps_and_bound cfg (q : jsstring) :
  0 <= maxQueryLength (search cfg) ->
  sanitizeQuery cfg q
  = Spec.truncate (maxQueryLength (search cfg))
      (Spec.collapseRuns is_whitespace false
         (Spec.collapseRuns is_crlf_tab false
            (Spec.trimWhitespace q)))
  /\ Z.of_nat (length (sanitizeQuery cfg q)) <= maxQueryLength (search cfg).
Proof.
  intros Hmax. split.
  - apply sanitizeQuery_spec. exact Hmax.
  - apply slice_length_le. exact Hmax.
Qed.

Lemma sanitizeQuery_steps_and_bound_witness :
  0 <= maxQueryLength (search liveConfig)
  /\ sanitizeQuery liveConfig longQuery
     = Spec.truncate (maxQueryLength (search liveConfig))
         (Spec.collapseRuns is_whitespace false
            (Spec.collapseRuns is_crlf_tab false
               (Spec.trimWhitespace longQuery)))
  /\ Z.of_nat (length (sanitizeQuery liveConfig longQuery))
     <= maxQueryLength (search liveConfig).
Proof.
  split; [simpl; lia |].
  apply sanitizeQuery_steps_and_bound. simpl; lia.
Defined.

(* ------------------------------------------------------------------ *)
(** ** Rate limiter *)

Lemma resetSecond_cases (now : Z) (rc : RequestCount) :
  month (resetSecond now rc) = month rc
  /\ ((now - lastReset rc > 1000
       /\ second (resetSecond now rc) = 0
       /\ lastReset (resetSecond now rc) = now)
      \/ (now - lastReset rc <= 1000 /\ resetSecond now rc = rc)).
Proof.
  unfold resetSecond. destruct (Z.gtb_spec (now - lastReset rc) 1000).
  - split; [reflexivity | left]. simpl. lia.
  - split; [reflexivity | right]. split; [lia | reflexivity].
Qed.

Lemma checkRateLimit_throws cfg (now : Z) (rc : RequestCount) :
  limitReached cfg (resetSecond now rc) = true ->
  checkRateLimit cfg now rc
  = (resetSecond now rc, inl (ThrownError (lit "Rate limit exceeded"))).
Proof. unfold checkRateLimit. now intros ->. Qed.

Lemma checkRateLimit_passes cfg (now : Z) (rc : RequestCount) :
  limitReached cfg (resetSecond now rc) = false ->
  checkRateLimit cfg now rc
  = ({| second := second (resetSecond now rc) + 1;
        month := month (resetSecond now rc) + 1;
        lastReset := lastReset (resetSecond now rc) |}, inr tt).
Proof. unfold checkRateLimit. now intros ->. Qed.

Lemma limitReached_false cfg (rc : RequestCount) :
  limitReached cfg rc = false
  <-> second rc < perSecond (rateLimit cfg)
      /\ month rc < perMonth (rateLimit cfg).
Proof.
  unfold limitReached. rewrite orb_false_iff, !Z.geb_leb, !Z.leb_gt.
  reflexivity.
Qed.

Lemma checkRateLimit_month_monotone cfg (now : Z) (rc : RequestCount) :
  month rc <= month (fst (checkRateLimit cfg now rc)).
Proof.
  destruct (resetSecond_cases now rc) as [Hm _].
  destruct (limitReached cfg (resetSecond now rc)) eqn:E.
  - rewrite checkRateLimit_throws by exact E. simpl. lia.
  - rewrite checkRateLimit_passes by exact E. simpl. lia.
Qed.

Lemma checkAll_month_monotone cfg (times : list Z) (rc : RequestCount) :
  month rc <= month (fst (checkAll cfg times rc)).
Proof.
  revert rc. induction times as [| now rest IH]; intros rc; simpl; [lia |].
  pose proof (checkRateLimit_month_monotone cfg now rc) as H1.
  destruct (checkRateLimit cfg now rc) as [rc1 r].
  specialize (IH rc1). destruct (checkAll cfg rest rc1) as [rc2 rs].
  simpl in *. lia.
Qed.

(** C3, as stated, fails where the window reset takes part.  After three
    checks at time 0 a check at time 2000 returns and leaves the per-second
    counter at 1, not at 4; and with the month counter at its ceiling the
    same check throws and has zeroed the per-second counter. *)
Lemma check_resets_second_counter :
  fst (checkAll testConfig [0; 0; 0] (requestCount 0))
  = {| second := 3; month := 3; lastReset := 0 |}
  /\ checkRateLimit testConfig 2000 {| second := 3; month := 3; lastReset := 0 |}
     = ({| second := 1; month := 4; lastReset := 2000 |}, inr tt)
  /\ 1 <> 3 + 1
  /\ checkRateLimit testConfig 2000
       {| second := 3; month := 1000; lastReset := 0 |}
     = ({| second := 0; month := 1000; lastReset := 2000 |},
        inl (ThrownError (lit "Rate limit exceeded")))
  /\ 0 <> 3.
Proof. repeat split; try reflexivity; discriminate. Qed.

(** C3 (amended): with non-negative counters before a check, both are
    non-negative after it and the per-month counter has not decreased, also
    over any run of checks.  The check first applies the window reset, which
    leaves the per-second counter as it is or sets it to zero and never
    touches the per-month counter; a check that throws changes neither
    counter any further, a check that returns adds exactly one to the
    per-month counter and to the per-second counter as the reset left it. *)
Theorem checkRateLimit_counters cfg (now : Z) (rc : RequestCount) :
  0 <= second rc -> 0 <= month rc ->
  let rc1 := resetSecond now rc in
  let rc' := fst (checkRateLimit cfg now rc) in
  0 <= second rc' /\ 0 <= month rc'
  /\ month rc <= month rc'
  /\ (forall times, month rc <= month (fst (checkAll cfg times rc)))
  /\ (second rc1 = second rc \/ second rc1 = 0)
  /\ month rc1 = month rc
  /\ match snd (checkRateLimit cfg now rc) with
     | inl _ =>
         limitReached cfg rc1 = true
         /\ second rc' = second rc1 /\ month rc' = month rc
     | inr _ =>
         limitReached cfg rc1 = false
         /\ second rc' = second rc1 + 1 /\ month rc' = month rc + 1
     end.
Proof.
  intros Hs Hm rc1 rc'.
  destruct (resetSecond_cases now rc) as [Hmonth Hreset].
  fold rc1 in Hmonth, Hreset.
  assert (Hsec : second rc1 = second rc \/ second rc1 = 0).
  { destruct Hreset as [(_ & H0 & _) | (_ & ->)]; [right | left]; trivial. }
  assert (Hstep :
    match snd (checkRateLimit cfg now rc) with
    | inl _ =>
        limitReached cfg rc1 = true
        /\ second rc' = second rc1 /\ month rc' = month rc
    | inr _ =>
        limitReached cfg rc1 = false
        /\ second rc' = second rc1 + 1 /\ month rc' = month rc + 1
    end).
  { subst rc'. destruct (limitReached cfg rc1) eqn:E; subst rc1.
    - rewrite checkRateLimit_throws by exact E. simpl. auto.
    - rewrite checkRateLimit_passes by exact E. simpl.
      rewrite Hmonth. auto. }
  repeat split; trivial;
    try (intros; apply checkAll_month_monotone);
    destruct (snd (checkRateLimit cfg now rc));
    destruct Hstep as (_ & H2 & H3); lia.
Qed.

Lemma checkRateLimit_counters_witness :
  0 <= second {| second := 3; month := 7; lastReset := 0 |}
  /\ 0 <= month {| second := 3; month := 7; lastReset := 0 |}
  /\ second (fst (checkRateLimit testConfig 2000
                    {| second := 3; month := 7; lastReset := 0 |})) = 1
  /\ month (fst (checkRateLimit testConfig 2000
                   {| second := 3; month := 7; lastReset := 0 |})) = 8.
Proof.
  assert (Hs : 0 <= second {| second := 3; month := 7; lastReset := 0 |})
    by (simpl; lia).
  assert (Hm : 0 <= month {| second := 3; month := 7; lastReset := 0 |})
    by (simpl; lia).
  pose proof (checkRateLimit_counters testConfig 2000 _ Hs Hm) as H.
  simpl in H. destruct H as (_ & _ & _ & _ & _ & _ & _ & H2 & H3).
  repeat split; trivial.
Defined.

(** Checks made while the window is open and both ceilings are out of
    reach all return, each adding one to both counters. *)
Lemma checkAll_within_window cfg (times : list Z) (rc : RequestCount) :
  Forall (fun t => t - lastReset rc <= 1000) times ->
  second rc + Z.of_nat (length times) <= perSecond (rateLimit cfg) ->
  month rc + Z.of_nat (length times) <= perMonth (rateLimit cfg) ->
  checkAll cfg times rc
  = ({| second := second rc + Z.of_nat (length times);
        month := month rc + Z.of_nat (length times);
        lastReset := lastReset rc |},
     repeat (inr tt) (length times)).
Proof.
  revert rc. induction times as [| now rest IH]; intros rc Hwin Hsec Hmon.
  - destruct rc. simpl. now rewrite !Z.add_0_r.
  - inversion Hwin as [| ? ? Hnow Hrest]; subst.
    cbn [checkAll]. cbn [length] in Hsec, Hmon.
    destruct (resetSecond_cases now rc) as [_ [[Hgt _] | [_ Hsame]]]; [lia |].
    rewrite checkRateLimit_passes;
      [| rewrite Hsame; apply limitReached_false; lia].
    rewrite Hsame, IH; cbn [second month lastReset]; try lia; trivial.
    cbn [length repeat]. rewrite Nat2Z.inj_succ. do 2 f_equal; lia.
Qed.

(** C4, as stated, fails at the boundary: the window reopens only when
    _more_ than 1000ms have passed.  Five checks at time 0 use up the test
    ceiling; the check at time 1000, a full 1000ms after the last reset and
    far from the month ceiling, still throws. *)
Lemma check_at_1000ms_still_fails :
  snd (checkAll testConfig [0; 0; 0; 0; 0; 1000] (requestCount 0))
  = [inr tt; inr tt; inr tt; inr tt; inr tt;
     inl (ThrownError (lit "Rate limit exceeded"))]
  /\ 1000 - lastReset (fst (checkAll testConfig [0; 0; 0; 0; 0] (requestCount 0)))
     >= 1000
  /\ month (fst (checkAll testConfig [0; 0; 0; 0; 0] (requestCount 0)))
     < perMonth (rateLimit testConfig).
Proof. repeat split; vm_compute; congruence. Qed.

(** C4 (amended): in a window whose per-second counter stands at
    [second rc], the checks that bring it up to the ceiling all return, the
    next check inside the window throws "Rate limit exceeded", and a check
    made more than 1000ms after the window's last reset returns again,
    provided the month ceiling stays out of reach. *)
Theorem perSecond_window cfg (rc : RequestCount) (times : list Z)
    (next later : Z) :
  0 < perSecond (rateLimit cfg) ->
  0 <= second rc ->
  second rc + Z.of_nat (length times) = perSecond (rateLimit cfg) ->
  month rc + Z.of_nat (length times) < perMonth (rateLimit cfg) ->
  Forall (fun t => t - lastReset rc <= 1000) times ->
  next - lastReset rc <= 1000 ->
  later - lastReset rc > 1000 ->
  let rc1 := fst (checkAll cfg times rc) in
  let rc2 := fst (checkRateLimit cfg next rc1) in
  snd (checkAll cfg times rc) = repeat (inr tt) (length times)
  /\ snd (checkRateLimit cfg next rc1)
     = inl (ThrownError (lit "Rate limit exceeded"))
  /\ snd (checkRateLimit cfg later rc2) = inr tt.
Proof.
  intros Hpos Hsec Hfull Hmon Hwin Hnext Hlater rc1 rc2.
  subst rc2 rc1.
  rewrite checkAll_within_window by (trivial; lia).
  cbn [fst snd]. split; [reflexivity |].
  set (rc1 := {| second := _ |}).
  assert (Hsame : resetSecond next rc1 = rc1).
  { destruct (resetSecond_cases next rc1) as [_ [[Hgt _] | [_ H]]];
      [simpl in Hgt; lia | exact H]. }
  assert (Hfail : limitReached cfg (resetSecond next rc1) = true).
  { rewrite Hsame. unfold limitReached. apply orb_true_iff. left.
    apply Z.geb_le. simpl. lia. }
  rewrite (checkRateLimit_throws cfg next rc1 Hfail), Hsame.
  cbn [fst snd]. split; [reflexivity |].
  rewrite checkRateLimit_passes; [reflexivity |].
  destruct (resetSecond_cases later rc1) as [Hm [(_ & H0 & _) | [Hle _]]];
    [| simpl in Hle; lia].
  apply limitReached_false. rewrite H0, Hm. simpl. lia.
Qed.

Lemma perSecond_window_witness :
  0 < perSecond (rateLimit testConfig)
  /\ snd (checkAll testConfig [0; 10; 200; 999; 1000] (requestCount 0))
     = repeat (inr tt) 5
  /\ snd (checkRateLimit testConfig 1000
            (fst (checkAll testConfig [0; 10; 200; 999; 1000] (requestCount 0))))
     = inl (ThrownError (lit "Rate limit exceeded"))
  /\ snd (checkRateLimit testConfig 1001
            (fst (checkRateLimit testConfig 1000
                    (fst (checkAll testConfig [0; 10; 200; 999; 1000]
                            (requestCount 0))))))
     = inr tt.
Proof.
  split; [simpl; lia |].
  apply (perSecond_window testConfig (requestCount 0) [0; 10; 200; 999; 1000]
           1000 1001); simpl; try lia.
  repeat constructor; simpl; lia.
Defined.

(* ------------------------------------------------------------------ *)
(** ** Result normalizer *)

Lemma js_or_fallback (primary snippet : option jsstring) :
  js_or (js_or primary snippet) (Some [])
  = Some (Spec.fallbackDescription primary snippet).
Proof.
  destruct primary as [[| c d] |], snippet as [[| c' d'] |]; reflexivity.
Qed.

Lemma bind_returns {A B} (m : Logged A) (k : A -> Logged B) (a : A) :
  snd m = inr a -> snd (bind m k) = snd (k a).
Proof.
  destruct m as [ws [e | a']]; cbn; [discriminate |]. intros [= ->].
  now destruct (k a).
Qed.

Lemma bind_throws {A B} (m : Logged A) (k : A -> Logged B) (e : Thrown) :
  snd m = inl e -> snd (bind m k) = inl e.
Proof. destruct m as [ws [e' | a]]; cbn; [intros [= ->] |]; easy. Qed.

Lemma mapRecords_defined f (items : list (option BraveResult))
    (records : list BraveResult) :
  definedEntries items = Some records ->
  mapRecords f items = inr (List.map f records).
Proof.
  revert records. induction items as [| [r |] items IH]; intros records; cbn.
  - now intros [= <-].
  - destruct (definedEntries items) as [defined |]; [| discriminate].
    intros [= <-]. now rewrite (IH defined eq_refl).
  - discriminate.
Qed.

Lemma mapRecords_null f (items : list (option BraveResult)) :
  definedEntries items = None ->
  mapRecords f items = inl (typeErrorReading "null" "title").
Proof.
  induction items as [| [r |] items IH]; cbn; [discriminate | | reflexivity].
  destruct (definedEntries items); [discriminate |].
  intros _. now rewrite IH.
Qed.

Lemma extractSection_records f warning (sec : Shape (option BraveResult))
    (records : list BraveResult) :
  sectionRecords sec = Some records ->
  snd (extractSection f warning sec) = inr (List.map f records).
Proof.
  destruct sec as [| | items]; cbn; try (now intros [= <-]).
  apply mapRecords_defined.
Qed.

Lemma extractSection_repaired f warning (sec : Shape (option BraveResult)) :
  snd (extractSection f warning (emptyIfMalformed sec))
  = snd (extractSection f warning sec).
Proof. destruct sec; reflexivity. Qed.

Lemma accumulate_snd (data : BraveSearchResponse) (count : Z)
    (webL newsL videoL : list SearchResult) :
  snd (webResults data) = inr webL ->
  snd (newsResults data) = inr newsL ->
  snd (videoResults data) = inr videoL ->
  snd (accumulate data count)
  = match r_mixed data with
    | WellFormed main => snd (mixedLoop webL newsL videoL count main [])
    | _ => inr (List.map Some (webL ++ newsL ++ videoL))
    end.
Proof.
  intros Hweb Hnews Hvideo. unfold accumulate.
  rewrite (bind_returns _ _ _ Hweb), (bind_returns _ _ _ Hnews),
    (bind_returns _ _ _ Hvideo).
  now destruct (r_mixed data).
Qed.

Lemma extractBraveResults_snd (data : BraveSearchResponse) (count : Z) :
  snd (extractBraveResults data count)
  = match snd (accumulate data count) with
    | inl e => inl e
    | inr allResults => inr (slice allResults 0 count)
    end.
Proof.
  unfold extractBraveResults.
  destruct (snd (accumulate data count)) as [e | allResults] eqn:E.
  - apply bind_throws. exact E.
  - now rewrite (bind_returns _ _ _ E).
Qed.

Lemma extractBraveResults_length (data : BraveSearchResponse) (count : Z)
    (entries : list (option SearchResult)) :
  0 <= count ->
  snd (extractBraveResults data count) = inr entries ->
  Z.of_nat (length entries) <= count.
Proof.
  intros Hcount. rewrite extractBraveResults_snd.
  destruct (snd (accumulate data count)) as [e | allResults]; [discriminate |].
  intros [= <-]. apply slice_length_le. exact Hcount.
Qed.

Lemma nth_error_firstn_skipn {A} (l : list A) (n : nat) (x : A) :
  nth_error l n = Some x -> firstn 1 (skipn n l) = [x].
Proof.
  revert n. induction l as [| a l IH]; intros [| n]; simpl; try discriminate.
  - now intros [= ->].
  - apply IH.
Qed.

(** The comparison of the specification's side and the one of the [switch]
    agree, and so do the two ways of resolving a section type. *)
Lemma sameText_eqb (a b : jsstring) : Spec.sameText a b = jsstring_eqb a b.
Proof.
  unfold Spec.sameText. revert b.
  induction a as [| x a IH]; intros [| y b]; try reflexivity.
  cbn [length combine forallb jsstring_eqb fst snd Nat.eqb].
  rewrite <- IH.
  destruct (length a =? length b)%nat, (x =? y)%N; reflexivity.
Qed.

Lemma sourceResults_resolve webL newsL videoL (type : jsstring) :
  sourceResults webL newsL videoL type
  = option_map (Spec.resolve webL newsL videoL) (Spec.sectionNamed type).
Proof.
  unfold sourceResults, Spec.sectionNamed. rewrite !sameText_eqb.
  destruct (jsstring_eqb type (lit "web")); [reflexivity |].
  destruct (jsstring_eqb type (lit "news")); [reflexivity |].
  now destruct (jsstring_eqb type (lit "videos")).
Qed.

Lemma applyDirective_contribution webL newsL videoL src
    (d : Spec.Directive) (allResults : list (option SearchResult)) :
  sourceResults webL newsL videoL (Spec.sectionType d) = Some src ->
  fst (applyDirective src (rawItem d) allResults)
  = allResults ++ List.map Some (Spec.contribution webL newsL videoL d).
Proof.
  rewrite sourceResults_resolve. unfold Spec.contribution.
  destruct (Spec.sectionNamed (Spec.sectionType d)) as [section |];
    [| discriminate].
  cbn [option_map]. intros [= <-].
  set (src := Spec.resolve webL newsL videoL section).
  unfold applyDirective, rawItem. cbn [mi_all mi_index mi_type].
  destruct (Spec.takeAll d); [reflexivity |].
  destruct (Spec.itemIndex d) as [i |]; cbn [option_map];
    [| symmetry; apply app_nil_r].
  cbn [number_ge0 number_lt]. rewrite Z.geb_leb.
  destruct ((0 <=? i) && (i <? Z.of_nat (length src))) eqn:E;
    [| symmetry; apply app_nil_r].
  apply andb_true_iff in E. destruct E as [Hlo%Z.leb_le Hhi%Z.ltb_lt].
  cbn [fst elementAt].
  replace (i <? 0) with false by (symmetry; apply Z.ltb_ge; exact Hlo).
  destruct (nth_error src (Z.to_nat i)) as [r |] eqn:Hnth.
  - now rewrite (nth_error_firstn_skipn _ _ _ Hnth).
  - apply nth_error_None in Hnth. lia.
Qed.

Lemma processDirectives_full webL newsL videoL (count : Z)
    (hint : list Spec.Directive) (output : list SearchResult) :
  count <= Z.of_nat (length output) ->
  Spec.processDirectives webL newsL videoL count hint output = output.
Proof.
  intros H. destruct hint; simpl; [reflexivity |].
  now apply Z.leb_le in H as ->.
Qed.

(** The loop of the code tests the length after a directive, and not at all
    after one of unknown type; the specification stops "as soon as" the
    count is reached.  Below the count the two agree. *)
Lemma mixedLoop_processDirectives webL newsL videoL (count : Z)
    (hint : list Spec.Directive) (output : list SearchResult) :
  Z.of_nat (length output) < count ->
  snd (mixedLoop webL newsL videoL count (List.map rawDirective hint)
         (List.map Some output))
  = inr (List.map Some
           (Spec.processDirectives webL newsL videoL count hint output)).
Proof.
  revert output.
  induction hint as [| d rest IH]; intros output Hlt; [reflexivity |].
  cbn [List.map rawDirective mixedLoop Spec.processDirectives].
  replace (count <=? Z.of_nat (length output)) with false
    by (symmetry; apply Z.leb_gt; exact Hlt).
  cbn [rawItem mi_type].
  destruct (sourceResults webL newsL videoL (Spec.sectionType d))
    as [src |] eqn:Hsrc.
  - pose proof (applyDirective_contribution _ _ _ _ d (List.map Some output) Hsrc)
      as Happ.
    fold (rawItem d).
    destruct (applyDirective src (rawItem d) (List.map Some output))
      as [all1 w1].
    cbn [fst] in Happ. rewrite <- map_app in Happ. subst all1.
    rewrite length_map.
    destruct (Z.geb_spec
                (Z.of_nat (length (output
                                     ++ Spec.contribution webL newsL videoL d)))
                count) as [Hge | Hlt1].
    + cbn [snd]. now rewrite processDirectives_full by lia.
    + rewrite (bind_returns (w1, inr tt) _ tt eq_refl). now apply IH.
  - rewrite (bind_returns ([UnknownMixedType (Spec.sectionType d)], inr tt)
               _ tt eq_refl).
    rewrite IH by exact Hlt. unfold Spec.contribution.
    rewrite sourceResults_resolve in Hsrc.
    destruct (Spec.sectionNamed (Spec.sectionType d)); [discriminate |].
    now rewrite app_nil_r.
Qed.

(** C2: for a positive [count] the returned array is never longer than
    [count].  On a response shaped as declared (section arrays of records
    [webList], [newsList], [videoList] as mapped; a hint, if any, whose
    directives carry integer indices) it is what the specification's
    processing yields: with a well-formed hint the directives in order, the
    section resolved by the declared type, the whole list for "take all",
    the one item for an index within bounds, nothing for an index out of
    bounds or an unknown section type, and no further directive once [count]
    items are there; without one [webList ++ newsList ++ videoList]; in
    either case cut to the first [count] items. *)
Theorem extractBraveResults_normalize (data : BraveSearchResponse) (count : Z) :
  0 < count ->
  (forall entries,
      snd (extractBraveResults data count) = inr entries ->
      Z.of_nat (length entries) <= count)
  /\ forall webList newsList videoList hint,
       snd (webResults data) = inr webList ->
       snd (newsResults data) = inr newsList ->
       snd (videoResults data) = inr videoList ->
       orderingHint data = option_map (List.map rawDirective) hint ->
       snd (accumulate data count)
       = inr (List.map Some
                match hint with
                | Some directives =>
                    Spec.processDirectives webList newsList videoList count
                      directives []
                | None => webList ++ newsList ++ videoList
                end)
       /\ snd (extractBraveResults data count)
          = inr (List.map Some
                   (Spec.normalize webList newsList videoList hint count))
       /\ Z.of_nat
            (length (Spec.normalize webList newsList videoList hint count))
          <= count.
Proof.
  intros Hpos. split.
  { intros entries. apply extractBraveResults_length. lia. }
  intros webList newsList videoList hint Hweb Hnews Hvideo Hhint.
  assert (Hacc : snd (accumulate data count)
                 = inr (List.map Some
                          (Spec.merged webList newsList videoList hint count))).
  { rewrite (accumulate_snd _ _ _ _ _ Hweb Hnews Hvideo).
    unfold orderingHint in Hhint. unfold Spec.merged.
    destruct (r_mixed data) as [| | main], hint as [directives |];
      try discriminate; try reflexivity.
    cbn in Hhint. injection Hhint as ->.
    apply (mixedLoop_processDirectives _ _ _ _ directives []). simpl. lia. }
  split; [exact Hacc |]. split.
  - rewrite extractBraveResults_snd, Hacc, slice_from_0 by lia.
    unfold Spec.normalize. now rewrite firstn_map.
  - unfold Spec.normalize. rewrite length_firstn. lia.
Qed.

Example normalize_with_hint :
  snd (extractBraveResults (sampleResponse (WellFormed sampleHint)) 10)
  = inr [ Some (webResult (sampleRecord "a"));
          Some (webResult (sampleRecord "b"));
          Some (newsResult (sampleRecord "c")) ].
Proof. vm_compute. reflexivity. Qed.

Example normalize_without_hint :
  snd (extractBraveResults (sampleResponse Absent) 10)
  = inr [ Some (webResult (sampleRecord "a"));
          Some (webResult (sampleRecord "b"));
          Some (newsResult (sampleRecord "c")) ].
Proof. vm_compute. reflexivity. Qed.

Example normalize_skips_odd_directives :
  extractBraveResults (sampleResponse (WellFormed oddHint)) 10
  = ([ UnknownMixedType (lit "images");
       IndexOutOfBounds (Integral 1) (lit "news") ],
     inr [ Some (webResult (sampleRecord "b")) ]).
Proof. vm_compute. reflexivity. Qed.

Example normalize_fractional_index :
  snd (extractBraveResults (sampleResponse (WellFormed fractionalHint)) 10)
  = inr [None].
Proof. vm_compute. reflexivity. Qed.

Example normalize_null_element :
  snd (extractBraveResults nullWebResponse 10)
  = inl (ThrownError (lit "Cannot read properties of null (reading 'title')")).
Proof. vm_compute. reflexivity. Qed.

Lemma extractBraveResults_normalize_witness :
  0 < 2
  /\ snd (extractBraveResults (sampleResponse (WellFormed sampleHint)) 2)
     = inr (List.map Some
              (Spec.normalize
                 [webResult (sampleRecord "a"); webResult (sampleRecord "b")]
                 [newsResult (sampleRecord "c")] []
                 (Some sampleDirectives) 2))
  /\ Spec.normalize
       [webResult (sampleRecord "a"); webResult (sampleRecord "b")]
       [newsResult (sampleRecord "c")] []
       (Some sampleDirectives) 2
     = [webResult (sampleRecord "a"); webResult (sampleRecord "b")].
Proof.
  assert (Hpos : 0 < 2) by lia.
  destruct (extractBraveResults_normalize
              (sampleResponse (WellFormed sampleHint)) 2 Hpos)
    as [_ Hspec].
  destruct (Hspec [webResult (sampleRecord "a"); webResult (sampleRecord "b")]
              [newsResult (sampleRecord "c")] [] (Some sampleDirectives)
              eq_refl eq_refl eq_refl eq_refl) as (_ & Hresult & _).
  split; [exact Hpos |]. split; [exact Hresult | reflexivity].
Defined.

Lemma accumulate_cases (data : BraveSearchResponse) (count : Z) :
  snd (accumulate data count)
  = match snd (webResults data) with
    | inl e => inl e
    | inr webL =>
        match snd (newsResults data) with
        | inl e => inl e
        | inr newsL =>
            match snd (videoResults data) with
            | inl e => inl e
            | inr videoL =>
                match r_mixed data with
                | WellFormed main =>
                    snd (mixedLoop webL newsL videoL count main [])
                | _ => inr (List.map Some (webL ++ newsL ++ videoL))
                end
            end
        end
    end.
Proof.
  unfold accumulate.
  destruct (snd (webResults data)) as [e | webL] eqn:Hweb;
    [now apply bind_throws |].
  rewrite (bind_returns _ _ _ Hweb).
  destruct (snd (newsResults data)) as [e | newsL] eqn:Hnews;
    [now apply bind_throws |].
  rewrite (bind_returns _ _ _ Hnews).
  destruct (snd (videoResults data)) as [e | videoL] eqn:Hvideo;
    [now apply bind_throws |].
  rewrite (bind_returns _ _ _ Hvideo).
  now destruct (r_mixed data).
Qed.

Lemma mixedLoop_returns webL newsL videoL (count : Z)
    (main : list (option BraveMixedItem))
    (allResults : list (option SearchResult)) :
  Forall (fun d => d <> None) main ->
  exists entries,
    snd (mixedLoop webL newsL videoL count main allResults) = inr entries.
Proof.
  intros Hmain. revert allResults.
  induction Hmain as [| [d |] main Hd _ IH]; intros allResults;
    [now exists allResults | | congruence].
  cbn [mixedLoop].
  destruct (sourceResults webL newsL videoL (mi_type d)) as [src |].
  - destruct (applyDirective src d allResults) as [all1 w1].
    destruct (Z.of_nat (length all1) >=? count); [now exists all1 |].
    rewrite (bind_returns (w1, inr tt) _ tt eq_refl). apply IH.
  - rewrite (bind_returns ([UnknownMixedType (mi_type d)], inr tt) _ tt eq_refl).
    apply IH.
Qed.

(** C7, as stated, fails for the news and video sections: their
    descriptions are copied as they are.  A news record with a snippet and
    no description comes out with an undefined description, where the
    fallback would give the snippet. *)
Lemma news_description_has_no_fallback :
  snd (extractBraveResults malformedWebResponse 5)
  = inr [ Some {| title := lit "t"; description := None; url := lit "u";
                  resultType := Some news |} ]
  /\ description (newsResult snippetOnlyRecord)
     <> Some (Spec.fallbackDescription (raw_description snippetOnlyRecord)
                (raw_snippet snippetOnlyRecord)).
Proof. split; [vm_compute; reflexivity | discriminate]. Qed.

(** C7 (amended): a section that is an array of records is mapped record by
    record, in order; the description of a web result falls back from the
    description to the snippet and else is empty text, the description of a
    news or video result is the record's description as it is.  A section
    that is absent or not an array yields the empty list: the outcome for a
    response is that for the response with such sections replaced by empty
    arrays, and when the arrays that are there hold records and the hint no
    [null], the normalization returns a list.  (What an array holding
    [null] leads to is not part of this statement.) *)
Theorem sections_normalized (data : BraveSearchResponse)
    (webRecords newsRecords videoRecords : list BraveResult) :
  sectionRecords (r_web data) = Some webRecords ->
  sectionRecords (r_news data) = Some newsRecords ->
  sectionRecords (r_videos data) = Some videoRecords ->
  snd (webResults data)
  = inr (List.map (fun r =>
                {| title := raw_title r;
                   description :=
                     Some (Spec.fallbackDescription (raw_description r)
                             (raw_snippet r));
                   url := raw_url r;
                   resultType := Some web |}) webRecords)
  /\ snd (newsResults data)
     = inr (List.map (fun r =>
                   {| title := raw_title r;
                      description := raw_description r;
                      url := raw_url r;
                      resultType := Some news |}) newsRecords)
  /\ snd (videoResults data)
     = inr (List.map (fun r =>
                   {| title := raw_title r;
                      description := raw_description r;
                      url := raw_url r;
                      resultType := Some video |}) videoRecords)
  /\ (forall count,
         snd (extractBraveResults data count)
         = snd (extractBraveResults (repairSections data) count))
  /\ ((forall main,
          r_mixed data = WellFormed main -> Forall (fun d => d <> None) main) ->
      forall count,
      exists entries, snd (extractBraveResults data count) = inr entries).
Proof.
  intros Hweb Hnews Hvideo.
  pose proof (extractSection_records webResult MalformedWebSection _ _ Hweb)
    as Hw.
  pose proof (extractSection_records newsResult MalformedNewsSection _ _ Hnews)
    as Hn.
  pose proof (extractSection_records videoResult MalformedVideosSection _ _ Hvideo)
    as Hv.
  fold (webResults data) in Hw. fold (newsResults data) in Hn.
  fold (videoResults data) in Hv.
  split; [| split; [| split; [| split]]].
  - rewrite Hw. f_equal. apply map_ext. intros r.
    unfold webResult. now rewrite js_or_fallback.
  - exact Hn.
  - exact Hv.
  - intros count. rewrite !extractBraveResults_snd, !accumulate_cases.
    unfold webResults, newsResults, videoResults, repairSections.
    cbn [r_web r_news r_videos r_mixed].
    now rewrite !extractSection_repaired.
  - intros Hhint count.
    rewrite extractBraveResults_snd, (accumulate_snd _ _ _ _ _ Hw Hn Hv).
    destruct (r_mixed data) as [| | main] eqn:Hmixed; try (eexists; reflexivity).
    destruct (mixedLoop_returns (List.map webResult webRecords)
                (List.map newsResult newsRecords)
                (List.map videoResult videoRecords) count main []
                (Hhint main eq_refl)) as [entries ->].
    eexists; reflexivity.
Qed.

Lemma sections_normalized_witness :
  snd (webResults malformedWebResponse) = inr []
  /\ snd (newsResults malformedWebResponse)
     = inr [ {| title := lit "t"; description := None; url := lit "u";
                resultType := Some news |} ]
  /\ exists entries,
       snd (extractBraveResults malformedWebResponse 5) = inr entries.
Proof.
  destruct (sections_normalized malformedWebResponse [] [snippetOnlyRecord] []
              eq_refl eq_refl eq_refl) as (Hw & Hn & _ & _ & Hreturns).
  split; [exact Hw |]. split; [exact Hn |].
  apply Hreturns. intros main Hmain. discriminate Hmain.
Defined.

(** With an empty hint there is nothing to iterate over. *)
Lemma empty_hint_yields_nothing (data : BraveSearchResponse) (count : Z)
    (webRecords newsRecords videoRecords : list BraveResult) :
  sectionRecords (r_web data) = Some webRecords ->
  sectionRecords (r_news data) = Some newsRecords ->
  sectionRecords (r_videos data) = Some videoRecords ->
  r_mixed data = WellFormed [] ->
  snd (extractBraveResults data count) = inr [].
Proof.
  intros Hweb Hnews Hvideo Hmixed.
  rewrite extractBraveResults_snd.
  rewrite (accumulate_snd data count _ _ _
             (extractSection_records webResult MalformedWebSection _ _ Hweb)
             (extractSection_records newsResult MalformedNewsSection _ _ Hnews)
             (extractSection_records videoResult MalformedVideosSection _ _ Hvideo)).
  rewrite Hmixed. cbn. now rewrite slice_nil.
Qed.

(* ------------------------------------------------------------------ *)
(** ** Search gateway *)

Section GatewayFacts.
Variable cfg : Config.
Variable fetch : Request -> FetchOutcome.

Lemma fetch_rejected (query : jsstring) (count : Z) (e : Thrown) :
  fetch (buildRequest cfg query count) = FetchRejects e ->
  fetchBraveSearchResults cfg fetch query count
  = (buildRequest cfg query count, [], inl e).
Proof. unfold fetchBraveSearchResults. now intros ->. Qed.

Lemma fetch_not_ok (query : jsstring) (count status : Z)
    (statusText : jsstring) (body : Body) :
  fetch (buildRequest cfg query count) = FetchResponse status statusText body ->
  response_ok status = false ->
  fetchBraveSearchResults cfg fetch query count
  = (buildRequest cfg query count, [], inl (statusError status statusText)).
Proof. unfold fetchBraveSearchResults. now intros -> ->. Qed.

Lemma fetch_ok (query : jsstring) (count status : Z)
    (statusText : jsstring) (body : Body) :
  fetch (buildRequest cfg query count) = FetchResponse status statusText body ->
  response_ok status = true ->
  fetchBraveSearchResults cfg fetch query count
  = (buildRequest cfg query count, fst (extractFromBody body count),
     snd (extractFromBody body count)).
Proof.
  unfold fetchBraveSearchResults. intros -> ->. cbn [negb].
  now destruct (extractFromBody body count).
Qed.

Lemma fetch_request (query : jsstring) (count : Z) :
  fst (fst (fetchBraveSearchResults cfg fetch query count))
  = buildRequest cfg query count.
Proof.
  unfold fetchBraveSearchResults.
  destruct (fetch (buildRequest cfg query count)) as [e | status text body];
    [reflexivity |].
  destruct (negb (response_ok status)); [reflexivity |].
  now destruct (extractFromBody body count).
Qed.

(** The requests of one invocation: none when the rate limiter throws,
    else the one request built from the sanitized query and the count. *)
Lemma searchBody_requests (now : Z) (rc : RequestCount) (query : jsstring)
    (count : Z) :
  run_requests (searchBody cfg fetch now rc query count)
  = if limitReached cfg (resetSecond now rc) then []
    else [buildRequest cfg (sanitizeQuery cfg query) count].
Proof.
  unfold searchBody.
  destruct (limitReached cfg (resetSecond now rc)) eqn:E.
  - now rewrite checkRateLimit_throws.
  - rewrite checkRateLimit_passes by exact E.
    pose proof (fetch_request (sanitizeQuery cfg query) count) as Hreq.
    destruct (fetchBraveSearchResults cfg fetch (sanitizeQuery cfg query) count)
      as [[request ws] fetched].
    cbn in *. now rewrite Hreq.
Qed.

Lemma searchBody_throws (now : Z) (rc : RequestCount) (query : jsstring)
    (count : Z) (e : Thrown) :
  Arises cfg fetch now rc query count e ->
  run_value (searchBody cfg fetch now rc query count) = inl e.
Proof.
  unfold searchBody.
  intros [Hlim | e' Hlim Hfetch | status text body Hlim Hfetch Hok
          | status text e' Hlim Hfetch Hok
          | status text body e' Hlim Hfetch Hok Hthrown
          | status text body results e' Hlim Hfetch Hok Hresults Hsome Hformat].
  - now rewrite checkRateLimit_throws.
  - rewrite checkRateLimit_passes by exact Hlim.
    now rewrite (fetch_rejected _ _ _ Hfetch).
  - rewrite checkRateLimit_passes by exact Hlim.
    now rewrite (fetch_not_ok _ _ _ _ _ Hfetch Hok).
  - rewrite checkRateLimit_passes by exact Hlim.
    now rewrite (fetch_ok _ _ _ _ _ Hfetch Hok).
  - rewrite checkRateLimit_passes by exact Hlim.
    rewrite (fetch_ok _ _ _ _ _ Hfetch Hok). cbn [run_value].
    now rewrite Hthrown.
  - rewrite checkRateLimit_passes by exact Hlim.
    rewrite (fetch_ok _ _ _ _ _ Hfetch Hok). cbn [run_value].
    rewrite Hresults. destruct results as [| r results]; [congruence |].
    exact Hformat.
Qed.

(** These are the only ways for the [try] block to throw. *)
Lemma searchBody_throws_only (now : Z) (rc : RequestCount) (query : jsstring)
    (count : Z) (e : Thrown) :
  run_value (searchBody cfg fetch now rc query count) = inl e ->
  Arises cfg fetch now rc query count e.
Proof.
  unfold searchBody.
  destruct (limitReached cfg (resetSecond now rc)) eqn:Hlim.
  - rewrite checkRateLimit_throws by exact Hlim. cbn [run_value].
    intros [= <-]. now apply RateLimitFailure.
  - rewrite checkRateLimit_passes by exact Hlim.
    destruct (fetch (buildRequest cfg (sanitizeQuery cfg query) count))
      as [e' | status text body] eqn:Hfetch.
    + rewrite (fetch_rejected _ _ _ Hfetch). cbn [run_value].
      intros [= <-]. now apply NetworkFailure.
    + destruct (response_ok status) eqn:Hok.
      * rewrite (fetch_ok _ _ _ _ _ Hfetch Hok). cbn [run_value].
        destruct (snd (extractFromBody body count)) as [e' | results] eqn:Hbody.
        -- intros [= <-].
           now apply (ExtractionFailure _ _ _ _ _ _ status text body).
        -- destruct results as [| r results]; [discriminate |].
           cbn [length Nat.eqb]. intros Hformat.
           apply (FormattingFailure _ _ _ _ _ _ status text body (r :: results));
             trivial. discriminate.
      * rewrite (fetch_not_ok _ _ _ _ _ Hfetch Hok). cbn [run_value].
        intros [= <-]. now apply (ProviderFailure _ _ _ _ _ _ status text body).
Qed.

(** Whatever happens, [performWebSearch] returns text. *)
Lemma performWebSearch_returns_text (now : Z) (rc : RequestCount)
    (query : jsstring) (count : option Z) (safeSearch : option SafeSearch) :
  exists text,
    run_value (performWebSearch cfg fetch now rc query count safeSearch)
    = inr text.
Proof.
  unfold performWebSearch. cbn [run_value].
  destruct (run_value (searchBody cfg fetch now rc query (countOrDefault cfg count)));
    eauto.
Qed.

End GatewayFacts.

Lemma errorText_embeds_query (query : jsstring) (e : Thrown) :
  embeds query (errorText query e).
Proof.
  exists (lit "Sorry, there was an error performing your search for " ++ QUOTE),
    (QUOTE ++ lit ". Error: " ++ errorMessageOf e ++ lit ".").
  unfold errorText. now rewrite <- app_assoc.
Qed.

Lemma errorText_embeds_message (query : jsstring) (e : Thrown) :
  embeds (errorMessageOf e) (errorText query e).
Proof.
  exists (lit "Sorry, there was an error performing your search for " ++ QUOTE
            ++ query ++ QUOTE ++ lit ". Error: "),
    (lit ".").
  unfold errorText. now rewrite <- !app_assoc.
Qed.

(** C1: whichever error arises in an invocation (the rate limiter's, a
    rejected [fetch], a response that is not [ok], a body that does not
    parse), [performWebSearch] does not throw: it returns the error text,
    which contains the query as the caller gave it and the message of the
    error. *)
Theorem performWebSearch_error_text cfg fetch (now : Z) (rc : RequestCount)
    (query : jsstring) (count : option Z) (safeSearch : option SafeSearch)
    (e : Thrown) :
  Arises cfg fetch now rc query (countOrDefault cfg count) e ->
  run_value (performWebSearch cfg fetch now rc query count safeSearch)
  = inr (errorText query e)
  /\ embeds query (errorText query e)
  /\ embeds (errorMessageOf e) (errorText query e).
Proof.
  intros Herr. split; [| split].
  - unfold performWebSearch. cbn [run_value].
    now rewrite (searchBody_throws _ _ _ _ _ _ _ Herr).
  - apply errorText_embeds_query.
  - apply errorText_embeds_message.
Qed.

Lemma performWebSearch_error_text_witness :
  Arises testConfig unreachable 0 (requestCount 0) (lit "  cats  ")
    (countOrDefault testConfig None) (ThrownError (lit "fetch failed"))
  /\ run_value (performWebSearch testConfig unreachable 0 (requestCount 0)
                  (lit "  cats  ") None None)
     = inr (lit "Sorry, there was an error performing your search for "
              ++ QUOTE ++ lit "  cats  " ++ QUOTE
              ++ lit ". Error: fetch failed.").
Proof.
  assert (H : Arises testConfig unreachable 0 (requestCount 0) (lit "  cats  ")
                (countOrDefault testConfig None)
                (ThrownError (lit "fetch failed")))
    by (apply NetworkFailure; reflexivity).
  split; [exact H |].
  exact (proj1 (performWebSearch_error_text testConfig unreachable 0
                  (requestCount 0) (lit "  cats  ") None None _ H)).
Defined.

Example unauthorized_becomes_text :
  run_value (performWebSearch liveConfig
               (fun _ => FetchResponse 401 (lit "Unauthorized")
                           (BodyRejects (ThrownValue [])))
               0 (requestCount 0) (lit "cats") None None)
  = inr (lit "Sorry, there was an error performing your search for "
           ++ QUOTE ++ lit "cats" ++ QUOTE
           ++ lit ". Error: Brave Search API: Unauthorized - check your API key.").
Proof. vm_compute. reflexivity. Qed.

Example server_error_carries_status :
  run_value (performWebSearch liveConfig
               (fun _ => FetchResponse 503 (lit "Service Unavailable")
                           (BodyRejects (ThrownValue [])))
               0 (requestCount 0) (lit "cats") None None)
  = inr (lit "Sorry, there was an error performing your search for "
           ++ QUOTE ++ lit "cats" ++ QUOTE
           ++ lit ". Error: Brave Search API error: 503 Service Unavailable.").
Proof. vm_compute. reflexivity. Qed.

Example results_are_formatted :
  run_value (performWebSearch liveConfig
               (respondWith (sampleResponse (WellFormed sampleHint)))
               0 (requestCount 0) (lit "cats") (Some 1) None)
  = inr (lit "Search results for " ++ QUOTE ++ lit "cats" ++ QUOTE
           ++ lit " (1 results)" ++ NL ++ NL
           ++ lit "### 1. " ++ emoji_web ++ lit " a" ++ NL
           ++ lit "about a" ++ NL
           ++ lit "[Read more](https://example.org/a)").
Proof. vm_compute. reflexivity. Qed.

(** C10: a response whose ordering hint is a well-formed, empty list of
    directives normalizes to the empty list, whatever records its web, news
    and video sections hold and whatever the count; when the rate limiter
    lets the invocation through and the provider answers with such a
    response, [performWebSearch] returns the "No results found" text, which
    names the query. *)
Theorem empty_hint_no_results cfg fetch (now : Z) (rc : RequestCount)
    (query : jsstring) (count : option Z) (safeSearch : option SafeSearch)
    (status : Z) (statusText : jsstring) (data : BraveSearchResponse)
    (webRecords newsRecords videoRecords : list BraveResult) :
  r_mixed data = WellFormed [] ->
  sectionRecords (r_web data) = Some webRecords ->
  sectionRecords (r_news data) = Some newsRecords ->
  sectionRecords (r_videos data) = Some videoRecords ->
  limitReached cfg (resetSecond now rc) = false ->
  fetch (buildRequest cfg (sanitizeQuery cfg query) (countOrDefault cfg count))
  = FetchResponse status statusText (BodyJson data) ->
  response_ok status = true ->
  (forall n, snd (extractBraveResults data n) = inr [])
  /\ run_value (performWebSearch cfg fetch now rc query count safeSearch)
     = inr (lit "No results found for " ++ [34%N] ++ query ++ [34%N]
              ++ lit ". Try using different keywords or check your spelling.")
  /\ embeds (lit "No results found")
       (lit "No results found for " ++ [34%N] ++ query ++ [34%N]
          ++ lit ". Try using different keywords or check your spelling.")
  /\ embeds query
       (lit "No results found for " ++ [34%N] ++ query ++ [34%N]
          ++ lit ". Try using different keywords or check your spelling.").
Proof.
  intros Hmixed Hweb Hnews Hvideo Hlim Hfetch Hok.
  pose proof (fun n => empty_hint_yields_nothing data n _ _ _
                         Hweb Hnews Hvideo Hmixed) as Hempty.
  split; [exact Hempty |]. split; [| split].
  - unfold performWebSearch, searchBody. cbn [run_value].
    rewrite checkRateLimit_passes by exact Hlim.
    rewrite (fetch_ok _ _ _ _ _ _ _ Hfetch Hok). cbn [extractFromBody].
    now rewrite Hempty.
  - exists [], (lit " for " ++ [34%N] ++ query ++ [34%N]
                  ++ lit ". Try using different keywords or check your spelling.").
    reflexivity.
  - exists (lit "No results found for " ++ [34%N]),
      ([34%N] ++ lit ". Try using different keywords or check your spelling.").
    now rewrite <- !app_assoc.
Qed.

Lemma empty_hint_no_results_witness :
  r_mixed (sampleResponse (WellFormed [])) = WellFormed []
  /\ limitReached liveConfig (resetSecond 0 (requestCount 0)) = false
  /\ response_ok 200 = true
  /\ run_value (performWebSearch liveConfig
                  (respondWith (sampleResponse (WellFormed [])))
                  0 (requestCount 0) (lit "cats") (Some 5) (Some off))
     = inr (lit "No results found for " ++ [34%N] ++ lit "cats" ++ [34%N]
              ++ lit ". Try using different keywords or check your spelling.").
Proof.
  split; [reflexivity |]. split; [reflexivity |]. split; [reflexivity |].
  apply (empty_hint_no_results liveConfig
           (respondWith (sampleResponse (WellFormed [])))
           0 (requestCount 0) (lit "cats") (Some 5) (Some off)
           200 (lit "OK") (sampleResponse (WellFormed []))
           [sampleRecord "a"; sampleRecord "b"] [sampleRecord "c"] []);
    reflexivity.
Defined.

(** C8 fails on the code: the tool handler passes the freshness token to
    [performWebSearch], which has no parameter for it, so the run is the
    same with and without the token.  For [freshArgs] the one request
    carries the parameters q, count and safesearch, and no freshness. *)
Theorem freshness_is_not_sent cfg fetch (now : Z) (rc : RequestCount)
    (query : jsstring) (count : option Z) (safeSearch : option SafeSearch)
    (freshness : jsstring) :
  braveWebSearchTool cfg fetch now rc
    {| arg_query := query; arg_count := count; arg_safeSearch := safeSearch;
       arg_freshness := Some freshness |}
  = braveWebSearchTool cfg fetch now rc
      {| arg_query := query; arg_count := count; arg_safeSearch := safeSearch;
         arg_freshness := None |}
  /\ List.map req_searchParams
       (run_requests (braveWebSearchTool liveConfig fetch 0 (requestCount 0)
                        freshArgs))
     = [ [ (lit "q", lit "cats"); (lit "count", lit "5");
           (lit "safesearch", lit "strict") ] ]
  /\ Forall (fun request =>
               searchParams_get (lit "freshness") (req_searchParams request)
               = None)
       (run_requests (braveWebSearchTool liveConfig fetch 0 (requestCount 0)
                        freshArgs)).
Proof.
  assert (Hreq :
    run_requests (braveWebSearchTool liveConfig fetch 0 (requestCount 0) freshArgs)
    = [buildRequest liveConfig (lit "cats") 5]).
  { unfold braveWebSearchTool.
    replace (isWebSearchArgs liveConfig freshArgs) with true by reflexivity.
    cbn [negb run_requests]. unfold performWebSearch. cbn [run_requests].
    rewrite searchBody_requests. reflexivity. }
  split; [reflexivity |]. rewrite Hreq. split.
  - reflexivity.
  - constructor; [reflexivity | constructor].
Qed.

(** C9: the caller's safety level has no effect on an invocation, so two
    calls that differ in it alone issue the same request; every request
    issued has its [safesearch] parameter set to "strict". *)
Theorem safesearch_is_always_strict cfg fetch (now : Z) (rc : RequestCount)
    (query : jsstring) (count : option Z) (level1 level2 : option SafeSearch) :
  performWebSearch cfg fetch now rc query count level1
  = performWebSearch cfg fetch now rc query count level2
  /\ run_requests (performWebSearch cfg fetch now rc query count level1)
     = run_requests (performWebSearch cfg fetch now rc query count level2)
  /\ Forall (fun request =>
               searchParams_get (lit "safesearch") (req_searchParams request)
               = Some (lit "strict"))
       (run_requests (performWebSearch cfg fetch now rc query count level1)).
Proof.
  split; [reflexivity |]. split; [reflexivity |].
  unfold performWebSearch. cbn [run_requests]. rewrite searchBody_requests.
  destruct (limitReached cfg (resetSecond now rc)); constructor;
    [reflexivity | constructor].
Qed.

(* ================================================================== *)
(** * Further properties of the code *)

(** ** Query sanitizer *)

Lemma slice_from_0_prefix {A} (s : list A) (n : Z) :
  exists m, slice s 0 n = firstn m s.
Proof.
  unfold slice. set (to := relativeIndex _ n).
  exists (Z.to_nat (Z.max (to - 0) 0)).
  unfold relativeIndex. replace (0 <? 0) with false by reflexivity.
  rewrite (Z.min_l 0) by lia. reflexivity.
Qed.

Lemma sanitizeQuery_prefix cfg (q : jsstring) :
  exists m,
    sanitizeQuery cfg q
    = firstn m (Spec.collapseRuns is_whitespace false
                  (Spec.collapseRuns is_crlf_tab false (Spec.trimWhitespace q))).
Proof.
  unfold sanitizeQuery.
  rewrite trim_trimWhitespace.
  rewrite (proj1 (replaceAllPlus_collapseRuns is_crlf_tab _)).
  rewrite (proj1 (replaceAllPlus_collapseRuns is_whitespace _)).
  apply slice_from_0_prefix.
Qed.

Lemma sanitizeQuery_uncut cfg (q : jsstring) :
  Z.of_nat (length q) <= maxQueryLength (search cfg) ->
  sanitizeQuery cfg q
  = Spec.collapseRuns is_whitespace false
      (Spec.collapseRuns is_crlf_tab false (Spec.trimWhitespace q)).
Proof.
  intros Hlen. rewrite sanitizeQuery_spec by lia.
  unfold Spec.sanitize, Spec.truncate, Spec.trimWhitespace.
  apply firstn_all2.
  pose proof (collapseRuns_length is_whitespace false
                (Spec.collapseRuns is_crlf_tab false
                   (Spec.stripTrailing (Spec.stripLeading q)))).
  pose proof (collapseRuns_length is_crlf_tab false
                (Spec.stripTrailing (Spec.stripLeading q))).
  destruct (stripTrailing_prefix (Spec.stripLeading q)) as [n Hn].
  assert ((length (Spec.stripTrailing (Spec.stripLeading q))
           <= length (Spec.stripLeading q))%nat)
    by (rewrite Hn, length_firstn; lia).
  pose proof (stripLeading_length q). lia.
Qed.

Lemma singleSpaced_only_spaces (s : jsstring) :
  singleSpaced s -> Forall (fun c => is_whitespace c = true -> c = SPACE) s.
Proof.
  induction s as [| c s IH]; simpl; [constructor |].
  intros [Hc Hs]. constructor; [| apply IH; exact Hs].
  intros Hw. apply (Hc Hw).
Qed.

Lemma singleSpaced_no_double_space (s pre post : jsstring) :
  singleSpaced s -> s <> pre ++ [SPACE; SPACE] ++ post.
Proof.
  revert s. induction pre as [| a pre IH]; intros s Hs ->; simpl in Hs.
  - destruct Hs as [Hc _]. destruct (Hc eq_refl) as [_ Hnext]. discriminate.
  - destruct Hs as [_ Hs]. exact (IH _ Hs eq_refl).
Qed.

(** X1: whatever the query and the configured maximum, the sanitized query
    does not start with whitespace, its only whitespace characters are
    U+0020 (so no CR, LF or TAB is left), and no two of them are adjacent. *)
Theorem sanitizeQuery_whitespace_normalized cfg (q : jsstring) :
  startsWithSpace (sanitizeQuery cfg q) = false
  /\ Forall (fun c => is_whitespace c = true -> c = SPACE) (sanitizeQuery cfg q)
  /\ Forall (fun c => is_crlf_tab c = false) (sanitizeQuery cfg q)
  /\ forall pre post, sanitizeQuery cfg q <> pre ++ [SPACE; SPACE] ++ post.
Proof.
  destruct (sanitizeQuery_prefix cfg q) as [m ->].
  assert (Hshape : singleSpaced
            (firstn m (Spec.collapseRuns is_whitespace false
                         (Spec.collapseRuns is_crlf_tab false
                            (Spec.trimWhitespace q)))))
    by apply firstn_singleSpaced, collapseRuns_singleSpaced.
  split; [| split; [| split]].
  - apply firstn_head.
    apply collapseRuns_head; [auto |].
    apply collapseRuns_head; [exact crlf_tab_is_whitespace |].
    apply stripTrailing_head, stripLeading_head.
  - apply singleSpaced_only_spaces. exact Hshape.
  - apply singleSpaced_only_spaces in Hshape.
    eapply Forall_impl; [| exact Hshape]. cbn beta. intros c Hc.
    destruct (is_crlf_tab c) eqn:E; [| reflexivity].
    rewrite (Hc (crlf_tab_is_whitespace c E)) in E. discriminate E.
  - intros pre post. apply singleSpaced_no_double_space. exact Hshape.
Qed.

Lemma dropWhile_all {A} (p : A -> bool) (l : list A) :
  Forall (fun x => p x = true) l -> dropWhile p l = [].
Proof.
  induction 1 as [| x l Hx _ IH]; simpl; [reflexivity |]. now rewrite Hx.
Qed.

(** X2: a query made of whitespace only (the empty query included) is
    sanitized to the empty string. *)
Theorem sanitizeQuery_blank cfg (q : jsstring) :
  Forall (fun c => is_whitespace c = true) q ->
  sanitizeQuery cfg q = [].
Proof.
  intros Hblank. unfold sanitizeQuery, trim, trimStart.
  rewrite (dropWhile_all _ _ Hblank). cbn. apply slice_nil.
Qed.

Lemma sanitizeQuery_blank_witness :
  Forall (fun c => is_whitespace c = true) (lit "  " ++ [9; 10; 160]%N)
  /\ sanitizeQuery liveConfig (lit "  " ++ [9; 10; 160]%N) = [].
Proof.
  assert (H : Forall (fun c => is_whitespace c = true)
                (lit "  " ++ [9; 10; 160]%N))
    by (repeat constructor).
  split; [exact H | exact (sanitizeQuery_blank liveConfig _ H)].
Defined.

(** X3: a query that is already in normal form (no whitespace at either
    end, single U+0020 between words) and within the maximum length is
    returned unchanged. *)
Theorem sanitizeQuery_fixed_point cfg (q : jsstring) :
  singleSpaced q ->
  startsWithSpace q = false ->
  endsWithSpace q = false ->
  Z.of_nat (length q) <= maxQueryLength (search cfg) ->
  sanitizeQuery cfg q = q.
Proof.
  intros Hshape Hhead Hlast Hlen.
  rewrite sanitizeQuery_uncut by exact Hlen.
  unfold Spec.trimWhitespace.
  rewrite <- trimStart_stripLeading, (trimStart_fixed q Hhead).
  rewrite <- trimEnd_stripTrailing, (trimEnd_fixed q Hlast).
  rewrite (singleSpaced_collapse_crlf_tab false q Hshape).
  apply (singleSpaced_collapse_whitespace q Hshape).
Qed.

Lemma sanitizeQuery_fixed_point_witness :
  sanitizeQuery liveConfig (lit "cats and dogs") = lit "cats and dogs".
Proof.
  apply sanitizeQuery_fixed_point.
  - simpl. repeat split; intros; first [discriminate | reflexivity].
  - reflexivity.
  - reflexivity.
  - simpl. lia.
Defined.

Lemma visible_collapseRuns cls (b : bool) (s : jsstring) :
  (forall c, cls c = true -> is_whitespace c = true) ->
  visible (Spec.collapseRuns cls b s) = visible s.
Proof.
  intros Hcls. unfold visible. revert b.
  induction s as [| c s IH]; intros b; [reflexivity |].
  cbn [Spec.collapseRuns filter]. destruct (cls c) eqn:E.
  - rewrite (Hcls c E). cbn [negb].
    destruct b; [apply IH |]. cbn [filter].
    replace (is_whitespace SPACE) with true by reflexivity. apply IH.
  - cbn [filter]. now rewrite IH.
Qed.

Lemma visible_stripLeading (s : jsstring) :
  visible (Spec.stripLeading s) = visible s.
Proof.
  unfold visible. induction s as [| c s IH]; [reflexivity |].
  cbn [Spec.stripLeading].
  destruct (is_whitespace c) eqn:E; cbn [filter]; rewrite E; cbn [negb];
    [exact IH | reflexivity].
Qed.

Lemma visible_stripTrailing (s : jsstring) :
  visible (Spec.stripTrailing s) = visible s.
Proof.
  unfold visible. induction s as [| c s IH]; [reflexivity |].
  cbn [Spec.stripTrailing filter].
  destruct (Spec.stripTrailing s) as [| x kept].
  - cbn [filter] in IH. rewrite <- IH.
    destruct (is_whitespace c) eqn:E; cbn [filter]; rewrite ?E; reflexivity.
  - cbn [filter]. now rewrite <- IH.
Qed.

Lemma visible_normalized (q : jsstring) :
  visible (Spec.collapseRuns is_whitespace false
             (Spec.collapseRuns is_crlf_tab false (Spec.trimWhitespace q)))
  = visible q.
Proof.
  rewrite visible_collapseRuns by auto.
  rewrite visible_collapseRuns by exact crlf_tab_is_whitespace.
  unfold Spec.trimWhitespace.
  now rewrite visible_stripTrailing, visible_stripLeading.
Qed.

Lemma filter_firstn_prefix {A} (p : A -> bool) (n : nat) (l : list A) :
  exists m, List.filter p (firstn n l) = firstn m (List.filter p l).
Proof.
  revert n. induction l as [| a l IH]; intros [| n].
  - now exists 0%nat.
  - now exists 0%nat.
  - now exists 0%nat.
  - destruct (IH n) as [m Hm]. cbn [firstn filter].
    destruct (p a); [exists (S m); cbn [firstn]; now rewrite Hm | now exists m].
Qed.

(** X4: sanitizing only touches whitespace and the tail: the non-whitespace
    characters of the sanitized query are an initial part of the
    non-whitespace characters of the query, in the same order. *)
Theorem sanitizeQuery_visible_prefix cfg (q : jsstring) :
  exists m, visible (sanitizeQuery cfg q) = firstn m (visible q).
Proof.
  destruct (sanitizeQuery_prefix cfg q) as [n ->].
  rewrite <- (visible_normalized q). apply filter_firstn_prefix.
Qed.

(** X5: for a query within the maximum length nothing is cut: the
    sanitized query has exactly the non-whitespace characters of the
    query. *)
Theorem sanitizeQuery_keeps_visible cfg (q : jsstring) :
  Z.of_nat (length q) <= maxQueryLength (search cfg) ->
  visible (sanitizeQuery cfg q) = visible q.
Proof.
  intros Hlen. rewrite sanitizeQuery_uncut by exact Hlen.
  apply visible_normalized.
Qed.

Lemma sanitizeQuery_keeps_visible_witness :
  visible (sanitizeQuery liveConfig (lit "  cats" ++ [10; 9]%N ++ lit "dogs  "))
  = lit "catsdogs".
Proof.
  rewrite sanitizeQuery_keeps_visible; [reflexivity | simpl; lia].
Defined.

(* ------------------------------------------------------------------ *)
(** ** Rate limiter *)

Lemma checkAll_cons cfg (now : Z) (rest : list Z) (rc : RequestCount) :
  checkAll cfg (now :: rest) rc
  = (fst (checkAll cfg rest (fst (checkRateLimit cfg now rc))),
     snd (checkRateLimit cfg now rc)
       :: snd (checkAll cfg rest (fst (checkRateLimit cfg now rc)))).
Proof.
  cbn [checkAll]. destruct (checkRateLimit cfg now rc) as [rc1 r].
  cbn [fst snd]. now destruct (checkAll cfg rest rc1).
Qed.

Lemma checkAll_app cfg (a b : list Z) (rc : RequestCount) :
  checkAll cfg (a ++ b) rc
  = (fst (checkAll cfg b (fst (checkAll cfg a rc))),
     snd (checkAll cfg a rc) ++ snd (checkAll cfg b (fst (checkAll cfg a rc)))).
Proof.
  revert rc. induction a as [| now a IH]; intros rc.
  - cbn. now destruct (checkAll cfg b rc).
  - cbn [app]. rewrite !checkAll_cons, IH. reflexivity.
Qed.

Lemma checkRateLimit_within_ceilings cfg (now : Z) (rc : RequestCount) :
  0 <= perSecond (rateLimit cfg) ->
  second rc <= perSecond (rateLimit cfg) ->
  month rc <= perMonth (rateLimit cfg) ->
  second (fst (checkRateLimit cfg now rc)) <= perSecond (rateLimit cfg)
  /\ month (fst (checkRateLimit cfg now rc)) <= perMonth (rateLimit cfg).
Proof.
  intros Hpos Hs Hm.
  destruct (resetSecond_cases now rc) as [Hmonth Hreset].
  assert (Hs1 : second (resetSecond now rc) <= perSecond (rateLimit cfg)).
  { destruct Hreset as [(_ & -> & _) | (_ & ->)]; lia. }
  destruct (limitReached cfg (resetSecond now rc)) eqn:E.
  - rewrite checkRateLimit_throws by exact E. cbn [fst]. lia.
  - rewrite checkRateLimit_passes by exact E. cbn [fst second month].
    apply limitReached_false in E. lia.
Qed.

(** X6: the counters never pass their ceilings: if they are within the
    ceilings before a run of checks, they are after it, whatever the times
    of the checks. *)
Theorem checkAll_within_ceilings cfg (times : list Z) (rc : RequestCount) :
  0 <= perSecond (rateLimit cfg) ->
  second rc <= perSecond (rateLimit cfg) ->
  month rc <= perMonth (rateLimit cfg) ->
  second (fst (checkAll cfg times rc)) <= perSecond (rateLimit cfg)
  /\ month (fst (checkAll cfg times rc)) <= perMonth (rateLimit cfg).
Proof.
  intros Hpos. revert rc.
  induction times as [| now rest IH]; intros rc Hs Hm; [now split |].
  rewrite checkAll_cons. cbn [fst].
  destruct (checkRateLimit_within_ceilings cfg now rc Hpos Hs Hm).
  now apply IH.
Qed.

Lemma checkAll_within_ceilings_witness :
  second (fst (checkAll testConfig [0; 1; 2; 3; 4; 5; 6; 2000; 2001]
                 (requestCount 0))) <= 5
  /\ month (fst (checkAll testConfig [0; 1; 2; 3; 4; 5; 6; 2000; 2001]
                   (requestCount 0))) <= 1000.
Proof.
  apply (checkAll_within_ceilings testConfig); simpl; lia.
Defined.

Lemma checkRateLimit_month_account cfg (now : Z) (rc : RequestCount) :
  month (fst (checkRateLimit cfg now rc))
  = month rc + (if succeeded (snd (checkRateLimit cfg now rc)) then 1 else 0).
Proof.
  destruct (resetSecond_cases now rc) as [Hmonth _].
  destruct (limitReached cfg (resetSecond now rc)) eqn:E.
  - rewrite checkRateLimit_throws by exact E. cbn. lia.
  - rewrite checkRateLimit_passes by exact E. cbn. lia.
Qed.

Lemma checkAll_month_account cfg (times : list Z) (rc : RequestCount) :
  month (fst (checkAll cfg times rc))
  = month rc + admitted (snd (checkAll cfg times rc)).
Proof.
  unfold admitted. revert rc.
  induction times as [| now rest IH]; intros rc; [cbn; lia |].
  rewrite checkAll_cons. cbn [fst snd filter].
  rewrite IH, checkRateLimit_month_account.
  destruct (succeeded (snd (checkRateLimit cfg now rc))); cbn [length]; lia.
Qed.

(** X7: the per-month counter counts the admitted checks: over any run it
    grows by exactly the number of checks that returned. *)
Theorem month_counts_admitted cfg (times : list Z) (rc : RequestCount) :
  month (fst (checkAll cfg times rc))
  = month rc + admitted (snd (checkAll cfg times rc)).
Proof. apply checkAll_month_account. Qed.

Lemma checkAll_month_ceiling cfg (times : list Z) (rc : RequestCount) :
  month rc <= perMonth (rateLimit cfg) ->
  month (fst (checkAll cfg times rc)) <= perMonth (rateLimit cfg).
Proof.
  revert rc. induction times as [| now rest IH]; intros rc Hm; [exact Hm |].
  rewrite checkAll_cons. cbn [fst]. apply IH.
  rewrite checkRateLimit_month_account.
  destruct (succeeded (snd (checkRateLimit cfg now rc))) eqn:Hok; [| lia].
  destruct (limitReached cfg (resetSecond now rc)) eqn:E.
  - rewrite checkRateLimit_throws in Hok by exact E. discriminate Hok.
  - apply limitReached_false in E.
    destruct (resetSecond_cases now rc) as [Hmonth _]. lia.
Qed.

(** X8: from the start of the process on, however the checks are timed, at
    most [perMonth] of them are ever admitted: the per-month counter is
    never reset. *)
Theorem lifetime_budget cfg (t0 : Z) (times : list Z) :
  0 <= perMonth (rateLimit cfg) ->
  admitted (snd (checkAll cfg times (requestCount t0)))
  <= perMonth (rateLimit cfg).
Proof.
  intros Hpos.
  pose proof (checkAll_month_account cfg times (requestCount t0)) as Hacc.
  pose proof (checkAll_month_ceiling cfg times (requestCount t0)) as Hceil.
  cbn [requestCount month] in Hacc, Hceil. specialize (Hceil Hpos). lia.
Qed.

Lemma lifetime_budget_witness :
  admitted (snd (checkAll testConfig [0; 5000; 10000] (requestCount 0))) <= 1000.
Proof. apply (lifetime_budget testConfig 0). simpl. lia. Defined.

(** X9: once the per-month counter has reached its ceiling, every later
    check throws, whenever it is made, and the counter stays where it is. *)
Theorem month_ceiling_is_final cfg (times : list Z) (rc : RequestCount) :
  perMonth (rateLimit cfg) <= month rc ->
  Forall (fun r => succeeded r = false) (snd (checkAll cfg times rc))
  /\ month (fst (checkAll cfg times rc)) = month rc.
Proof.
  revert rc. induction times as [| now rest IH]; intros rc Hfull.
  - split; [constructor | reflexivity].
  - rewrite checkAll_cons. cbn [fst snd].
    destruct (resetSecond_cases now rc) as [Hmonth _].
    assert (E : limitReached cfg (resetSecond now rc) = true).
    { unfold limitReached. apply orb_true_iff. right. apply Z.geb_le. lia. }
    rewrite checkRateLimit_throws by exact E. cbn [fst snd].
    destruct (IH (resetSecond now rc)) as [Hall Hm]; [lia |].
    split; [constructor; [reflexivity | exact Hall] | lia].
Qed.

Lemma month_ceiling_is_final_witness :
  Forall (fun r => succeeded r = false)
    (snd (checkAll testConfig [0; 5000; 90000]
            {| second := 0; month := 1000; lastReset := 0 |}))
  /\ month (fst (checkAll testConfig [0; 5000; 90000]
                   {| second := 0; month := 1000; lastReset := 0 |})) = 1000.
Proof. apply (month_ceiling_is_final testConfig). simpl. lia. Defined.

(** X10: the per-second ceiling bounds a window, not a second of wall-clock
    time: a full window of [n = perSecond] checks at the last instant of
    one window and another [n] checks one millisecond later, in the next
    window, are all admitted. *)
Theorem boundary_burst cfg (t : Z) (n : nat) :
  (0 < n)%nat ->
  perSecond (rateLimit cfg) = Z.of_nat n ->
  2 * Z.of_nat n <= perMonth (rateLimit cfg) ->
  snd (checkAll cfg (repeat (t + 1000) n ++ repeat (t + 1001) n)
         (requestCount t))
  = repeat (inr tt) (n + n).
Proof.
  intros Hn Hsec Hmon. rewrite checkAll_app. cbn [snd].
  rewrite (checkAll_within_window cfg (repeat (t + 1000) n) (requestCount t));
    rewrite ?repeat_length; cbn [requestCount second month lastReset];
    [| apply Forall_forall; intros x Hx; apply repeat_spec in Hx; lia
     | lia | lia].
  cbn [fst snd]. rewrite repeat_app. f_equal.
  destruct n as [| k]; [lia |]. cbn [repeat].
  rewrite checkAll_cons. cbn [snd].
  set (rc1 := {| second := 0 + Z.of_nat (S k); month := 0 + Z.of_nat (S k);
                 lastReset := t |}).
  destruct (resetSecond_cases (t + 1001) rc1)
    as [Hmonth [(_ & H0 & Hlast) | [Hle _]]]; [| cbn in Hle; lia].
  assert (E : limitReached cfg (resetSecond (t + 1001) rc1) = false).
  { apply limitReached_false. rewrite H0, Hmonth. cbn [rc1 month]. lia. }
  rewrite checkRateLimit_passes by exact E. cbn [fst snd]. f_equal.
  rewrite checkAll_within_window; rewrite ?repeat_length;
    cbn [second month lastReset snd]; [reflexivity | | |].
  - rewrite Hlast. apply Forall_forall. intros x Hx.
    apply repeat_spec in Hx. lia.
  - rewrite H0. lia.
  - rewrite Hmonth. cbn [rc1 month]. lia.
Qed.

Lemma boundary_burst_witness :
  snd (checkAll testConfig (repeat (0 + 1000) 5 ++ repeat (0 + 1001) 5)
         (requestCount 0))
  = repeat (inr tt) (5 + 5).
Proof.
  apply (boundary_burst testConfig 0 5); [lia | reflexivity | simpl; lia].
Defined.

(* ------------------------------------------------------------------ *)
(** ** Result normalizer *)

Lemma slice_incl {A} (s : list A) (a b : Z) : incl (slice s a b) s.
Proof.
  unfold slice. intros x Hx.
  set (n := Z.to_nat (Z.max _ 0)) in Hx. set (k := Z.to_nat _) in Hx.
  rewrite <- (firstn_skipn k s). apply in_or_app. right.
  rewrite <- (firstn_skipn n (skipn k s)). apply in_or_app. now left.
Qed.

Lemma mapRecords_present f (items : list (option BraveResult))
    (mapped : list SearchResult) :
  mapRecords f items = inr mapped ->
  mapped = List.map f (presentRecords (WellFormed items)).
Proof.
  revert mapped. induction items as [| [r |] items IH]; intros mapped; cbn.
  - now intros [= <-].
  - destruct (mapRecords f items) as [e | rest]; [discriminate |].
    intros [= <-]. f_equal. now apply IH.
  - discriminate.
Qed.

Lemma extractSection_present f warning (sec : Shape (option BraveResult))
    (mapped : list SearchResult) :
  snd (extractSection f warning sec) = inr mapped ->
  mapped = List.map f (presentRecords sec).
Proof.
  destruct sec as [| | items]; cbn [extractSection snd];
    try (now intros [= <-]).
  apply mapRecords_present.
Qed.

Lemma sourceResults_incl webL newsL videoL (type : jsstring) src :
  sourceResults webL newsL videoL type = Some src ->
  incl src (webL ++ newsL ++ videoL).
Proof.
  unfold sourceResults.
  destruct (jsstring_eqb type (lit "web"));
    [intros [= <-]; apply incl_appl, incl_refl |].
  destruct (jsstring_eqb type (lit "news"));
    [intros [= <-]; apply incl_appr, incl_appl, incl_refl |].
  destruct (jsstring_eqb type (lit "videos")); [| discriminate].
  intros [= <-]. apply incl_appr, incl_appr, incl_refl.
Qed.

Lemma applyDirective_entries src (d : BraveMixedItem)
    (allResults : list (option SearchResult)) (items : list SearchResult)
    (fractional : Prop) :
  incl src items ->
  (forall floor, mi_index d = Some (Between floor) -> fractional) ->
  Forall (entryFrom items fractional) allResults ->
  Forall (entryFrom items fractional) (fst (applyDirective src d allResults)).
Proof.
  intros Hsrc Hfrac Hall. unfold applyDirective.
  destruct (mi_all d).
  - cbn [fst]. apply Forall_app. split; [exact Hall |].
    apply Forall_forall. intros entry Hentry.
    apply in_map_iff in Hentry. destruct Hentry as (r & <- & Hr).
    exact (Hsrc r Hr).
  - destruct (mi_index d) as [index |]; [| exact Hall].
    destruct (number_ge0 index && number_lt index (Z.of_nat (length src)))
      eqn:Hbounds; [| exact Hall].
    cbn [fst]. apply Forall_app. split; [exact Hall |].
    constructor; [| constructor].
    apply andb_true_iff in Hbounds. destruct Hbounds as [Hlo Hhi].
    destruct index as [z | floor | negative];
      cbn [elementAt number_ge0 number_lt entryFrom] in *.
    + rewrite Z.geb_leb in Hlo. apply Z.leb_le in Hlo. apply Z.ltb_lt in Hhi.
      replace (z <? 0) with false by (symmetry; apply Z.ltb_ge; exact Hlo).
      destruct (nth_error src (Z.to_nat z)) as [r |] eqn:Hnth.
      * exact (Hsrc r (nth_error_In _ _ Hnth)).
      * apply nth_error_None in Hnth. lia.
    + exact (Hfrac floor eq_refl).
    + destruct negative; discriminate.
Qed.

Lemma mixedLoop_entries webL newsL videoL (count : Z)
    (main : list (option BraveMixedItem))
    (allResults entries : list (option SearchResult)) (fractional : Prop) :
  (forall d floor,
      In (Some d) main -> mi_index d = Some (Between floor) -> fractional) ->
  Forall (entryFrom (webL ++ newsL ++ videoL) fractional) allResults ->
  snd (mixedLoop webL newsL videoL count main allResults) = inr entries ->
  Forall (entryFrom (webL ++ newsL ++ videoL) fractional) entries.
Proof.
  revert allResults.
  induction main as [| [d |] rest IH]; intros allResults Hfrac Hall;
    cbn [mixedLoop]; [now intros [= <-] | | discriminate].
  assert (Hrest : forall d' floor,
             In (Some d') rest -> mi_index d' = Some (Between floor) ->
             fractional)
    by (intros d' floor Hin; apply (Hfrac d' floor); now right).
  destruct (sourceResults webL newsL videoL (mi_type d)) as [src |] eqn:Hsrc.
  - pose proof (applyDirective_entries src d allResults _ fractional
                  (sourceResults_incl _ _ _ _ _ Hsrc)
                  (fun floor => Hfrac d floor (or_introl eq_refl)) Hall)
      as Hall1.
    destruct (applyDirective src d allResults) as [all1 w1]. cbn [fst] in Hall1.
    destruct (Z.of_nat (length all1) >=? count); [now intros [= <-] |].
    rewrite (bind_returns (w1, inr tt) _ tt eq_refl). now apply IH.
  - rewrite (bind_returns ([UnknownMixedType (mi_type d)], inr tt) _ tt eq_refl).
    now apply IH.
Qed.

Lemma sections_returned (data : BraveSearchResponse) (count : Z)
    (entries : list (option SearchResult)) :
  snd (extractBraveResults data count) = inr entries ->
  exists allResults,
    snd (webResults data)
    = inr (List.map webResult (presentRecords (r_web data)))
    /\ snd (newsResults data)
       = inr (List.map newsResult (presentRecords (r_news data)))
    /\ snd (videoResults data)
       = inr (List.map videoResult (presentRecords (r_videos data)))
    /\ snd (accumulate data count) = inr allResults
    /\ entries = slice allResults 0 count.
Proof.
  rewrite extractBraveResults_snd.
  destruct (snd (accumulate data count)) as [e | allResults] eqn:Hacc;
    [discriminate |].
  intros [= <-]. exists allResults.
  rewrite accumulate_cases in Hacc.
  destruct (snd (webResults data)) as [e | webL] eqn:Hweb; [discriminate |].
  destruct (snd (newsResults data)) as [e | newsL] eqn:Hnews; [discriminate |].
  destruct (snd (videoResults data)) as [e | videoL] eqn:Hvideo;
    [discriminate |].
  rewrite <- (extractSection_present _ _ _ _ Hweb),
    <- (extractSection_present _ _ _ _ Hnews),
    <- (extractSection_present _ _ _ _ Hvideo).
  repeat split; reflexivity.
Qed.

Lemma extractBraveResults_entries (data : BraveSearchResponse) (count : Z)
    (entries : list (option SearchResult)) :
  snd (extractBraveResults data count) = inr entries ->
  Forall (entryFrom (sectionItems data) (hasFractionalIndex data)) entries.
Proof.
  intros Hentries.
  destruct (sections_returned data count entries Hentries)
    as (allResults & Hweb & Hnews & Hvideo & Hacc & ->).
  rewrite (accumulate_snd _ _ _ _ _ Hweb Hnews Hvideo) in Hacc.
  apply Forall_forall. intros entry Hentry. apply slice_incl in Hentry.
  revert entry Hentry. apply Forall_forall. unfold sectionItems.
  destruct (r_mixed data) as [| | main] eqn:Hmixed.
  - injection Hacc as <-. apply Forall_forall. intros entry Hentry.
    apply in_map_iff in Hentry. now destruct Hentry as (r & <- & Hr).
  - injection Hacc as <-. apply Forall_forall. intros entry Hentry.
    apply in_map_iff in Hentry. now destruct Hentry as (r & <- & Hr).
  - apply (mixedLoop_entries _ _ _ count main [] allResults); trivial.
    intros d floor Hin Hindex. now exists main, d, floor.
Qed.

(** X11: every entry of the array [extractBraveResults] returns is one of
    the mapped items of the web, news or video section, whatever the count
    and the ordering hint; or it is [undefined], which happens only when a
    directive of the hint has an index that is not an integer. *)
Theorem extractBraveResults_from_sections (data : BraveSearchResponse)
    (count : Z) (entries : list (option SearchResult)) :
  snd (extractBraveResults data count) = inr entries ->
  Forall (fun entry =>
            match entry with
            | Some r => In r (sectionItems data)
            | None => hasFractionalIndex data
            end) entries.
Proof. apply extractBraveResults_entries. Qed.

Lemma extractBraveResults_from_sections_witness :
  Forall (fun entry =>
            match entry with
            | Some r => In r (sectionItems (sampleResponse (WellFormed oddHint)))
            | None => hasFractionalIndex (sampleResponse (WellFormed oddHint))
            end)
    [Some (webResult (sampleRecord "b"))].
Proof.
  apply (extractBraveResults_from_sections
           (sampleResponse (WellFormed oddHint)) 10).
  vm_compute. reflexivity.
Defined.

Lemma sectionItems_tagged (data : BraveSearchResponse) :
  Forall (fun r =>
            (resultType r = Some web /\ exists d, description r = Some d)
            \/ resultType r = Some news
            \/ resultType r = Some video)
    (sectionItems data).
Proof.
  unfold sectionItems.
  apply Forall_app. split; [| apply Forall_app; split];
    apply Forall_forall; intros r Hr; apply in_map_iff in Hr;
    destruct Hr as (raw & <- & _).
  - left. split; [reflexivity |]. unfold webResult. cbn [description].
    rewrite js_or_fallback. eauto.
  - now right; left.
  - now right; right.
Qed.

(** X12: every result in the array [extractBraveResults] returns carries
    its section as [resultType], and a web result always has a description
    that is text (possibly empty), never undefined. *)
Theorem extractBraveResults_tagged (data : BraveSearchResponse) (count : Z)
    (entries : list (option SearchResult)) (r : SearchResult) :
  snd (extractBraveResults data count) = inr entries ->
  In (Some r) entries ->
  (resultType r = Some web /\ exists d, description r = Some d)
  \/ resultType r = Some news
  \/ resultType r = Some video.
Proof.
  intros Hentries Hin.
  pose proof (extractBraveResults_entries data count entries Hentries) as Hfrom.
  pose proof (proj1 (Forall_forall _ _) Hfrom (Some r) Hin) as Hr.
  exact (proj1 (Forall_forall _ _) (sectionItems_tagged data) r Hr).
Qed.

Lemma extractBraveResults_tagged_witness :
  (resultType (newsResult (sampleRecord "c")) = Some web
   /\ exists d, description (newsResult (sampleRecord "c")) = Some d)
  \/ resultType (newsResult (sampleRecord "c")) = Some news
  \/ resultType (newsResult (sampleRecord "c")) = Some video.
Proof.
  apply (extractBraveResults_tagged (sampleResponse (WellFormed sampleHint)) 10
           [ Some (webResult (sampleRecord "a"));
             Some (webResult (sampleRecord "b"));
             Some (newsResult (sampleRecord "c")) ]).
  - vm_compute. reflexivity.
  - right. right. left. reflexivity.
Defined.

Lemma applyDirective_app src (d : BraveMixedItem)
    (allResults : list (option SearchResult)) :
  fst (applyDirective src d allResults)
  = allResults ++ fst (applyDirective src d []).
Proof.
  unfold applyDirective. destruct (mi_all d); [reflexivity |].
  destruct (mi_index d) as [index |]; [| symmetry; apply app_nil_r].
  destruct (number_ge0 index && number_lt index (Z.of_nat (length src)));
    [reflexivity | symmetry; apply app_nil_r].
Qed.

Lemma mixedLoop_flat webL newsL videoL (count : Z)
    (main : list BraveMixedItem) (allResults : list (option SearchResult)) :
  Z.of_nat (length allResults) < count ->
  exists entries,
    snd (mixedLoop webL newsL videoL count (List.map Some main) allResults)
    = inr entries
    /\ firstn (Z.to_nat count) entries
       = firstn (Z.to_nat count)
           (allResults ++ flat_map (directiveItems webL newsL videoL) main).
Proof.
  revert allResults.
  induction main as [| d rest IH]; intros allResults Hlt.
  - exists allResults. cbn. now rewrite app_nil_r.
  - cbn [List.map mixedLoop flat_map]. unfold directiveItems at 1.
    destruct (sourceResults webL newsL videoL (mi_type d)) as [src |].
    + pose proof (applyDirective_app src d allResults) as Happ.
      destruct (applyDirective src d allResults) as [all1 w1].
      cbn [fst] in Happ. rewrite app_assoc, <- Happ.
      destruct (Z.geb_spec (Z.of_nat (length all1)) count) as [Hge | Hlt1].
      * exists all1. split; [reflexivity |].
        rewrite firstn_app.
        replace (Z.to_nat count - length all1)%nat with 0%nat by lia.
        cbn [firstn]. now rewrite app_nil_r.
      * rewrite (bind_returns (w1, inr tt) _ tt eq_refl). now apply IH.
    + rewrite (bind_returns ([UnknownMixedType (mi_type d)], inr tt) _ tt eq_refl).
      cbn [app]. now apply IH.
Qed.

(** X13: the early exit of the loop only saves work.  For a positive count
    and a well-formed hint without [null] the returned list is the first
    [count] items of all the directives' items put one after the other; an
    item that several directives name is there once for each. *)
Theorem extractBraveResults_flat (data : BraveSearchResponse) (count : Z)
    (main : list BraveMixedItem) (webL newsL videoL : list SearchResult) :
  0 < count ->
  snd (webResults data) = inr webL ->
  snd (newsResults data) = inr newsL ->
  snd (videoResults data) = inr videoL ->
  r_mixed data = WellFormed (List.map Some main) ->
  snd (extractBraveResults data count)
  = inr (firstn (Z.to_nat count)
           (flat_map (directiveItems webL newsL videoL) main)).
Proof.
  intros Hpos Hweb Hnews Hvideo Hmixed.
  rewrite extractBraveResults_snd,
    (accumulate_snd _ _ _ _ _ Hweb Hnews Hvideo), Hmixed.
  destruct (mixedLoop_flat webL newsL videoL count main [])
    as (entries & -> & Hfirst); [simpl; lia |].
  rewrite slice_from_0 by lia. now rewrite Hfirst.
Qed.

Lemma extractBraveResults_flat_witness :
  snd (extractBraveResults
         (sampleResponse (WellFormed (sampleHint ++ sampleHint))) 4)
  = inr [ Some (webResult (sampleRecord "a"));
          Some (webResult (sampleRecord "b"));
          Some (newsResult (sampleRecord "c"));
          Some (webResult (sampleRecord "a")) ].
Proof.
  rewrite (extractBraveResults_flat _ 4
             (List.map rawItem (sampleDirectives ++ sampleDirectives))
             [webResult (sampleRecord "a"); webResult (sampleRecord "b")]
             [newsResult (sampleRecord "c")] []);
    [reflexivity | lia | reflexivity | reflexivity | reflexivity | reflexivity].
Defined.

(** X23: a [null] among the elements of the web, news or videos array makes
    [extractBraveResults] throw the [TypeError] of reading [title] of
    [null], whatever else the response holds. *)
Theorem extractBraveResults_null_element (data : BraveSearchResponse)
    (count : Z) :
  sectionRecords (r_web data) = None
  \/ sectionRecords (r_news data) = None
  \/ sectionRecords (r_videos data) = None ->
  snd (extractBraveResults data count)
  = inl (ThrownError (lit "Cannot read properties of null (reading 'title')")).
Proof.
  intros Hnull. rewrite extractBraveResults_snd, accumulate_cases.
  assert (Hsection : forall f warning sec,
             snd (extractSection f warning sec)
             = match sectionRecords sec with
               | Some records => inr (List.map f records)
               | None => inl (typeErrorReading "null" "title")
               end).
  { intros f warning sec.
    destruct (sectionRecords sec) as [records |] eqn:E;
      [now apply extractSection_records |].
    destruct sec as [| | items]; try discriminate.
    now apply mapRecords_null. }
  unfold webResults, newsResults, videoResults. rewrite !Hsection.
  destruct (sectionRecords (r_web data)); [| reflexivity].
  destruct (sectionRecords (r_news data)); [| reflexivity].
  destruct (sectionRecords (r_videos data)); [| reflexivity].
  destruct Hnull as [H | [H | H]]; discriminate H.
Qed.

Lemma extractBraveResults_null_element_witness :
  snd (extractBraveResults nullWebResponse 5)
  = inl (ThrownError (lit "Cannot read properties of null (reading 'title')")).
Proof. apply extractBraveResults_null_element. left. reflexivity. Defined.

(* ------------------------------------------------------------------ *)
(** ** Formatting *)

Lemma embeds_refl (s : jsstring) : embeds s s.
Proof. exists [], []. cbn. now rewrite app_nil_r. Qed.

Lemma embeds_app_l (x a b : jsstring) : embeds x a -> embeds x (a ++ b).
Proof.
  intros (pre & post & ->). exists pre, (post ++ b).
  now rewrite <- !app_assoc.
Qed.

Lemma embeds_app_r (x a b : jsstring) : embeds x b -> embeds x (a ++ b).
Proof.
  intros (pre & post & ->). exists (a ++ pre), post.
  now rewrite <- !app_assoc.
Qed.

Lemma embeds_trans (x y z : jsstring) : embeds x y -> embeds y z -> embeds x z.
Proof.
  intros (p1 & q1 & ->) (p2 & q2 & ->). exists (p2 ++ p1), (q1 ++ q2).
  now rewrite <- !app_assoc.
Qed.

Lemma join_embeds (sep part : jsstring) (parts : list jsstring) :
  In part parts -> embeds part (join sep parts).
Proof.
  induction parts as [| p rest IH]; [intros [] |].
  intros [<- | Hin]; cbn [join]; destruct rest as [| p' rest'].
  - apply embeds_refl.
  - apply embeds_app_l, embeds_refl.
  - destruct Hin.
  - apply embeds_app_r, embeds_app_r, IH. exact Hin.
Qed.

Lemma mapIndexed_In {A B} (f : A -> nat -> B) (k : nat) (l : list A) (a : A) :
  In a l -> exists i, In (f a i) (mapIndexed f k l).
Proof.
  revert k. induction l as [| x l IH]; intros k; [intros [] |].
  intros [<- | Hin]; cbn [mapIndexed].
  - exists k. now left.
  - destruct (IH (S k) Hin) as [i Hi]. exists i. now right.
Qed.

Lemma mapIndexed_length {A B} (f : A -> nat -> B) (k : nat) (l : list A) :
  length (mapIndexed f k l) = length l.
Proof.
  revert k. induction l as [| x l IH]; intros k; cbn; [| rewrite IH];
    reflexivity.
Qed.

Lemma formatResult_embeds (r : SearchResult) (index : nat) :
  embeds (title r) (formatResult r index)
  /\ embeds (url r) (formatResult r index).
Proof.
  unfold formatResult. split.
  - apply embeds_app_l. destruct (truthy (description r));
      [apply embeds_app_l |];
      do 5 apply embeds_app_r; apply embeds_refl.
  - do 3 apply embeds_app_r. apply embeds_app_l, embeds_refl.
Qed.

(** X14: the formatted text shows every result it is given: it contains
    the title and the URL of each. *)
Theorem formatSearchResults_shows_each (query : jsstring)
    (results : list SearchResult) (r : SearchResult) :
  In r results ->
  embeds (title r) (formatSearchResults query results)
  /\ embeds (url r) (formatSearchResults query results).
Proof.
  intros Hin.
  destruct (mapIndexed_In formatResult 0%nat results r Hin) as [i Hi].
  apply (join_embeds (NL ++ NL)) in Hi.
  destruct (formatResult_embeds r i) as [Ht Hu].
  unfold formatSearchResults.
  split; do 9 apply embeds_app_r; eapply embeds_trans; eauto.
Qed.

Lemma formatSearchResults_shows_each_witness :
  embeds (lit "c")
    (formatSearchResults (lit "cats")
       [ webResult (sampleRecord "a"); webResult (sampleRecord "b");
         newsResult (sampleRecord "c") ])
  /\ embeds (lit "https://example.org/c")
       (formatSearchResults (lit "cats")
          [ webResult (sampleRecord "a"); webResult (sampleRecord "b");
            newsResult (sampleRecord "c") ]).
Proof.
  apply (formatSearchResults_shows_each (lit "cats") _
           (newsResult (sampleRecord "c"))).
  right. right. left. reflexivity.
Defined.

Lemma formatResult_defined_description (r : SearchResult) (index : nat) :
  formatResult (withDefinedDescription r) index = formatResult r index.
Proof.
  unfold formatResult, withDefinedDescription. cbn [resultType title url description].
  now destruct (description r) as [[| c d] |].
Qed.

Lemma mapIndexed_map {A B C} (f : B -> nat -> C) (g : A -> B) (k : nat)
    (l : list A) :
  mapIndexed f k (List.map g l) = mapIndexed (fun a i => f (g a) i) k l.
Proof.
  revert k. induction l as [| x l IH]; intros k; cbn; [| rewrite IH];
    reflexivity.
Qed.

Lemma mapIndexed_ext {A B} (f g : A -> nat -> B) (k : nat) (l : list A) :
  (forall a i, f a i = g a i) -> mapIndexed f k l = mapIndexed g k l.
Proof.
  intros Hfg. revert k. induction l as [| x l IH]; intros k; cbn;
    [| rewrite IH, Hfg]; reflexivity.
Qed.

(** X15: the formatted text does not tell an undefined description from an
    empty one: neither gets a line, and the word "undefined" is not
    printed for it. *)
Theorem formatSearchResults_undefined_description (query : jsstring)
    (results : list SearchResult) :
  formatSearchResults query (List.map withDefinedDescription results)
  = formatSearchResults query results.
Proof.
  unfold formatSearchResults.
  rewrite length_map, mapIndexed_map.
  rewrite (mapIndexed_ext _ formatResult);
    [reflexivity | exact formatResult_defined_description].
Qed.

(* ------------------------------------------------------------------ *)
(** ** Search gateway *)

Lemma noResultsText_embeds_query (query : jsstring) :
  embeds query (noResultsText query).
Proof.
  unfold noResultsText. do 2 apply embeds_app_r. apply embeds_app_l, embeds_refl.
Qed.

Lemma formatSearchResults_embeds_query (query : jsstring)
    (results : list SearchResult) :
  embeds query (formatSearchResults query results).
Proof.
  unfold formatSearchResults.
  do 2 apply embeds_app_r. apply embeds_app_l, embeds_refl.
Qed.

Lemma searchBody_text cfg fetch (now : Z) (rc : RequestCount)
    (query : jsstring) (count : Z) (text : jsstring) :
  run_value (searchBody cfg fetch now rc query count) = inr text ->
  text = noResultsText query
  \/ exists results,
       results <> [] /\ text = formatSearchResults query results.
Proof.
  unfold searchBody.
  destruct (checkRateLimit cfg now rc) as [rc1 [e | u]]; [discriminate |].
  destruct (fetchBraveSearchResults cfg fetch (sanitizeQuery cfg query) count)
    as [[request ws] [e | entries]]; cbn [run_value]; [discriminate |].
  destruct entries as [| entry entries]; cbn [length Nat.eqb];
    [intros [= <-]; now left |].
  unfold formatExtracted.
  destruct (definedEntries (entry :: entries)) as [results |] eqn:E;
    [| discriminate].
  intros [= <-]. right. exists results. split; [| reflexivity].
  intros ->. destruct entry; cbn in E; [| discriminate].
  destruct (definedEntries entries); discriminate.
Qed.

(** X16: whatever happens in an invocation (results, no results, or any
    error), [performWebSearch] returns text that contains the query as the
    caller gave it. *)
Theorem performWebSearch_names_query cfg fetch (now : Z) (rc : RequestCount)
    (query : jsstring) (count : option Z) (safeSearch : option SafeSearch) :
  exists text,
    run_value (performWebSearch cfg fetch now rc query count safeSearch)
    = inr text
    /\ embeds query text.
Proof.
  unfold performWebSearch. cbn [run_value].
  destruct (run_value (searchBody cfg fetch now rc query (countOrDefault cfg count)))
    as [e | text] eqn:Hbody.
  - eexists. split; [reflexivity | apply errorText_embeds_query].
  - exists text. split; [reflexivity |].
    destruct (searchBody_text _ _ _ _ _ _ _ Hbody) as [-> | (results & _ & ->)].
    + apply noResultsText_embeds_query.
    + apply formatSearchResults_embeds_query.
Qed.

Lemma searchBody_state cfg fetch (now : Z) (rc : RequestCount)
    (query : jsstring) (count : Z) :
  run_state (searchBody cfg fetch now rc query count)
  = fst (checkRateLimit cfg now rc).
Proof.
  unfold searchBody.
  destruct (checkRateLimit cfg now rc) as [rc1 [e | u]]; [reflexivity |].
  now destruct (fetchBraveSearchResults cfg fetch (sanitizeQuery cfg query) count)
    as [[request ws] fetched].
Qed.

(** X17: an invocation changes the rate-limit state by its one check and
    nothing else: the state afterwards does not depend on the query, the
    count or the network, so a request that fails still uses up budget. *)
Theorem performWebSearch_charges_once cfg fetch (now : Z) (rc : RequestCount)
    (query : jsstring) (count : option Z) (safeSearch : option SafeSearch) :
  run_state (performWebSearch cfg fetch now rc query count safeSearch)
  = fst (checkRateLimit cfg now rc).
Proof. unfold performWebSearch. cbn [run_state]. apply searchBody_state. Qed.

Lemma toUSVString_plain (s : jsstring) :
  Forall (fun c => (c < 55296)%N) s -> toUSVString s = s.
Proof.
  induction 1 as [| c s Hc _ IH]; [reflexivity |]. cbn [toUSVString].
  unfold isHighSurrogate, isLowSurrogate.
  replace (55296 <=? c)%N with false by (symmetry; apply N.leb_gt; exact Hc).
  replace (56320 <=? c)%N with false by (symmetry; apply N.leb_gt; lia).
  cbn [andb]. now rewrite IH.
Qed.

Lemma toUSVString_lit (s : string) : toUSVString (lit s) = lit s.
Proof.
  apply toUSVString_plain. unfold lit. apply Forall_forall. intros c Hc.
  apply in_map_iff in Hc. destruct Hc as (a & <- & _).
  pose proof (N_ascii_bounded a). lia.
Qed.

Lemma buildRequest_params cfg (query : jsstring) (count : Z) :
  buildRequest cfg query count
  = {| req_url := baseUrl (brave cfg);
       req_searchParams :=
         [ (lit "q", toUSVString query);
           (lit "count", toStringZ count);
           (lit "safesearch", lit "strict") ];
       req_headers :=
         [ (lit "X-Subscription-Token", apiKey (brave cfg));
           (lit "Accept", lit "application/json");
           (lit "Accept-Encoding", lit "gzip") ] |}.
Proof.
  unfold buildRequest, searchParams_set, toStringZ.
  rewrite !toUSVString_lit. reflexivity.
Qed.



Lemma definedEntries_length {A} (entries : list (option A))
    (defined : list A) :
  definedEntries entries = Some defined -> length defined = length entries.
Proof.
  revert defined. induction entries as [| [a |] entries IH]; intros defined;
    cbn; [now intros [= <-] | | discriminate].
  destruct (definedEntries entries) as [rest |]; [| discriminate].
  intros [= <-]. cbn. now rewrite (IH rest eq_refl).
Qed.

(** X19: when the rate limiter passes and the provider answers ok with a
    parsed body, the reply for a positive count is one of four: the error
    text for what [extractBraveResults] threw (a [null] where a record or a
    directive is expected); the "no results" text; the formatting of the
    extracted results, which are at least one and at most [count]; or, when
    an entry is [undefined] (a directive with an index that is not an
    integer), the error text for the [TypeError] the formatting throws. *)
Theorem performWebSearch_result_count cfg fetch (now : Z) (rc : RequestCount)
    (query : jsstring) (count : option Z) (safeSearch : option SafeSearch)
    (status : Z) (statusText : jsstring) (data : BraveSearchResponse) :
  0 < countOrDefault cfg count ->
  limitReached cfg (resetSecond now rc) = false ->
  fetch (buildRequest cfg (sanitizeQuery cfg query) (countOrDefault cfg count))
  = FetchResponse status statusText (BodyJson data) ->
  response_ok status = true ->
  match snd (extractBraveResults data (countOrDefault cfg count)) with
  | inl e =>
      run_value (performWebSearch cfg fetch now rc query count safeSearch)
      = inr (errorText query e)
  | inr entries =>
      Z.of_nat (length entries) <= countOrDefault cfg count
      /\ match definedEntries entries with
         | Some [] =>
             run_value (performWebSearch cfg fetch now rc query count safeSearch)
             = inr (noResultsText query)
         | Some results =>
             (0 < length results)%nat
             /\ Z.of_nat (length results) <= countOrDefault cfg count
             /\ run_value
                  (performWebSearch cfg fetch now rc query count safeSearch)
                = inr (formatSearchResults query results)
         | None =>
             run_value (performWebSearch cfg fetch now rc query count safeSearch)
             = inr (errorText query
                      (ThrownError
                         (lit "Cannot read properties of undefined (reading 'resultType')")))
         end
  end.
Proof.
  intros Hpos Hlim Hfetch Hok.
  unfold performWebSearch, searchBody. cbn [run_value].
  rewrite checkRateLimit_passes by exact Hlim.
  rewrite (fetch_ok _ _ _ _ _ _ _ Hfetch Hok). cbn [extractFromBody].
  destruct (snd (extractBraveResults data (countOrDefault cfg count)))
    as [e | entries] eqn:Hentries; [reflexivity |].
  pose proof (extractBraveResults_length _ _ _ (Z.lt_le_incl _ _ Hpos) Hentries)
    as Hlen.
  split; [exact Hlen |].
  destruct entries as [| entry entries]; [reflexivity |].
  cbn [length Nat.eqb]. unfold formatExtracted.
  destruct (definedEntries (entry :: entries)) as [results |] eqn:E;
    [| reflexivity].
  pose proof (definedEntries_length _ _ E) as Hsame.
  destruct results as [| r results]; [discriminate Hsame |].
  rewrite Hsame. repeat split; trivial. cbn. lia.
Qed.

Lemma performWebSearch_result_count_witness :
  run_value (performWebSearch liveConfig
               (respondWith (sampleResponse (WellFormed fractionalHint)))
               0 (requestCount 0) (lit "cats") (Some 2) None)
  = inr (errorText (lit "cats")
           (ThrownError
              (lit "Cannot read properties of undefined (reading 'resultType')"))).
Proof.
  pose proof (performWebSearch_result_count liveConfig
                (respondWith (sampleResponse (WellFormed fractionalHint)))
                0 (requestCount 0) (lit "cats") (Some 2) None 200 (lit "OK")
                (sampleResponse (WellFormed fractionalHint))) as H.
  cbn [countOrDefault] in H.
  replace (snd (extractBraveResults
                  (sampleResponse (WellFormed fractionalHint)) 2))
    with (@inr Thrown _ [@None SearchResult]) in H by (vm_compute; reflexivity).
  apply H; [lia | reflexivity | reflexivity | reflexivity].
Defined.

(* ------------------------------------------------------------------ *)
(** ** Tool handler *)

Lemma isWebSearchArgs_length cfg (args : ToolArgs) :
  isWebSearchArgs cfg args = true
  <-> Z.of_nat (length (arg_query args)) <= maxQueryLength (search cfg).
Proof.
  unfold isWebSearchArgs. rewrite negb_true_iff, Z.gtb_ltb, Z.ltb_ge.
  reflexivity.
Qed.

(** X20: a query longer than [maxQueryLength] is refused before anything
    else happens: the handler throws "Brave search failed: Invalid search
    arguments provided", the rate-limit state is untouched and no request
    is made. *)
Theorem braveWebSearchTool_refuses_long_query cfg fetch (now : Z)
    (rc : RequestCount) (args : ToolArgs) :
  Z.of_nat (length (arg_query args)) > maxQueryLength (search cfg) ->
  braveWebSearchTool cfg fetch now rc args
  = {| run_state := rc;
       run_requests := [];
       run_warnings := [];
       run_value :=
         inl (ThrownError
                (lit "Brave search failed: Invalid search arguments provided")) |}.
Proof.
  intros Hlong. unfold braveWebSearchTool.
  destruct (isWebSearchArgs cfg args) eqn:E; [| reflexivity].
  apply isWebSearchArgs_length in E. lia.
Qed.

Lemma braveWebSearchTool_refuses_long_query_witness :
  run_requests (braveWebSearchTool liveConfig unreachable 0 (requestCount 0)
                  {| arg_query := longQuery; arg_count := None;
                     arg_safeSearch := None; arg_freshness := None |})
  = []
  /\ run_state (braveWebSearchTool liveConfig unreachable 0 (requestCount 0)
                  {| arg_query := longQuery; arg_count := None;
                     arg_safeSearch := None; arg_freshness := None |})
     = requestCount 0.
Proof.
  rewrite braveWebSearchTool_refuses_long_query;
    [split; reflexivity | vm_compute; reflexivity].
Defined.

(** X21: the handler throws exactly when the query is longer than
    [maxQueryLength]; for any other query it returns what [performWebSearch]
    returns, which is text whatever the rate limiter and the network do, so
    the handler's own [catch] is never reached from the search. *)
Theorem braveWebSearchTool_throws_iff cfg fetch (now : Z) (rc : RequestCount)
    (args : ToolArgs) :
  run_value (braveWebSearchTool cfg fetch now rc args)
  = (if Z.of_nat (length (arg_query args)) >? maxQueryLength (search cfg)
     then inl (ThrownError
                 (lit "Brave search failed: Invalid search arguments provided"))
     else run_value (performWebSearch cfg fetch now rc (arg_query args)
                       (arg_count args) (arg_safeSearch args)))
  /\ exists text,
       run_value (performWebSearch cfg fetch now rc (arg_query args)
                    (arg_count args) (arg_safeSearch args))
       = inr text.
Proof.
  pose proof (performWebSearch_returns_text cfg fetch now rc (arg_query args)
                (arg_count args) (arg_safeSearch args)) as [text Htext].
  split; [| eauto].
  unfold braveWebSearchTool, isWebSearchArgs. rewrite negb_involutive.
  destruct (Z.of_nat (length (arg_query args)) >? maxQueryLength (search cfg));
    cbn [run_value]; [reflexivity |].
  now rewrite Htext.
Qed.

(** X22: through the handler no query is ever cut: the query sanitized for
    a request has exactly the non-whitespace characters of the query given
    to the tool, and the q parameter of the request is that sanitized query
    as [URLSearchParams] stores it (a lone surrogate replaced by U+FFFD). *)
Theorem braveWebSearchTool_sends_whole_query cfg fetch (now : Z)
    (rc : RequestCount) (args : ToolArgs) :
  Forall (fun request =>
            searchParams_get (lit "q") (req_searchParams request)
            = Some (toUSVString (sanitizeQuery cfg (arg_query args)))
            /\ visible (sanitizeQuery cfg (arg_query args))
               = visible (arg_query args))
    (run_requests (braveWebSearchTool cfg fetch now rc args)).
Proof.
  unfold braveWebSearchTool.
  destruct (isWebSearchArgs cfg args) eqn:E; cbn [negb run_requests];
    [| constructor].
  apply isWebSearchArgs_length in E.
  unfold performWebSearch. cbn [run_requests]. rewrite searchBody_requests.
  destruct (limitReached cfg (resetSecond now rc)); constructor;
    [| constructor].
  split; [now rewrite buildRequest_params |].
  rewrite sanitizeQuery_uncut by exact E. apply visible_normalized.
Qed.
